(** * Relational record gateway: statement builders and error mapping

    A shallow embedding of the PostgreSQL helper module of the apparel
    design backend ([addToDB], [getFromDB], [updateInDB], [deleteFromDB],
    [testConnection], [handleError]) together with the properties its
    specification states about parameter numbering, guards and errors. *)

From Stdlib Require Import String Ascii List ZArith Lia Bool Arith.
From Stdlib Require Import Decimal DecimalNat DecimalZ DecimalString.
From Stdlib Require Import Sorting.Sorted.
Import ListNotations.

Local Open Scope string_scope.
Local Open Scope list_scope.

(** * The program *)

(** ** JavaScript values *)

(** The values that reach the gateway.  Numbers are restricted to the
    integers; arrays are dense. An object is the list of its own
    enumerable properties in [Object.entries] order. *)
#[warnings="-register-all"]
Inductive value : Type :=
| VNull
| VUndefined
| VBool (b : bool)
| VNum (n : Z)
| VStr (s : string)
| VArr (elems : list value)
| VObj (props : list (string * value)).

Definition object := list (string * value).
Definition row := object.

(** [Object.keys], [Object.values], [Object.entries]. *)
Definition keys (o : object) : list string := map fst o.
Definition vals (o : object) : list value := map snd o.
Definition entries (o : object) : list (string * value) := o.

(** Property read [o.name]; a missing property reads as [undefined]. *)
Fixpoint get (o : object) (name : string) : value :=
  match o with
  | [] => VUndefined
  | (k, v) :: rest => if String.eqb k name then v else get rest name
  end.

(** ToBoolean. *)
Definition truthy (v : value) : bool :=
  match v with
  | VNull | VUndefined => false
  | VBool b => b
  | VNum n => negb (Z.eqb n 0)
  | VStr s => negb (String.eqb s "")
  | VArr _ | VObj _ => true
  end.

Definition LF : string := String (ascii_of_nat 10) EmptyString.

(** Decimal rendering of a counter, as template interpolation prints it. *)
Definition decimal (n : nat) : string := NilEmpty.string_of_uint (Nat.to_uint n).

Definition decimalZ (n : Z) : string := NilZero.string_of_int (Z.to_int n).

(** ToString, as applied by template interpolation. *)
Fixpoint toString (v : value) : string :=
  match v with
  | VNull => "null"
  | VUndefined => "undefined"
  | VBool true => "true"
  | VBool false => "false"
  | VNum n => decimalZ n
  | VStr s => s
  | VArr elems =>
      String.concat ","
        ((fix each (l : list value) : list string :=
            match l with
            | [] => []
            | x :: rest =>
                match x with
                | VNull | VUndefined => ""
                | _ => toString x
                end :: each rest
            end) elems)
  | VObj _ => "[object Object]"
  end.

(** ** Statement text *)

(** A statement is kept as the sequence of pieces the template literals
    concatenate: verbatim text, and the placeholders printed from the
    parameter counter. [render] gives the string sent to the driver. *)
Inductive frag : Type :=
| Lit (s : string)
| Param (n : nat).

Definition text := list frag.

Definition render_frag (f : frag) : string :=
  match f with
  | Lit s => s
  | Param n => "$" ++ decimal n
  end.

Fixpoint render (t : text) : string :=
  match t with
  | [] => ""
  | f :: rest => render_frag f ++ render rest
  end.

(** The placeholder numbers of a statement, in order of appearance. *)
Fixpoint placeholders (t : text) : list nat :=
  match t with
  | [] => []
  | Lit _ :: rest => placeholders rest
  | Param n :: rest => n :: placeholders rest
  end.

(** [Array.prototype.join]. *)
Fixpoint join (sep : text) (parts : list text) : text :=
  match parts with
  | [] => []
  | [p] => p
  | p :: rest => p ++ sep ++ join sep rest
  end.

(** [Array.prototype.map] with the index argument. *)
Fixpoint map_from {A B : Type} (f : A -> nat -> B) (index : nat) (l : list A) : list B :=
  match l with
  | [] => []
  | x :: rest => f x index :: map_from f (S index) rest
  end.

Definition mapi {A B : Type} (f : A -> nat -> B) (l : list A) : list B :=
  map_from f 0 l.

(** [value.map(() => `$${paramCount++}`)]: one placeholder per element,
    the counter advancing once per element. *)
Fixpoint takePlaceholders {A : Type} (elems : list A) (paramCount : nat) : list text * nat :=
  match elems with
  | [] => ([], paramCount)
  | _ :: rest =>
      let '(more, paramCount') := takePlaceholders rest (S paramCount) in
      ([Param paramCount] :: more, paramCount')
  end.

Definition orElse {A : Type} (o : option A) (d : A) : A :=
  match o with
  | Some a => a
  | None => d
  end.

(** *** addToDB *)

Definition insertStatement (table : string) (data : object) (returnFields : string)
  : text * list value :=
  let columns := keys data in
  let values := vals data in
  let placeholders := mapi (fun _ index => [Param (index + 1)]) columns in
  ([Lit (LF ++ "      INSERT INTO "); Lit table; Lit " ("]
     ++ join [Lit ", "] (map (fun c => [Lit c]) columns)
     ++ [Lit (")" ++ LF ++ "      VALUES (")]
     ++ join [Lit ", "] placeholders
     ++ [Lit (")" ++ LF ++ "      RETURNING "); Lit returnFields; Lit (";" ++ LF ++ "    ")],
   values).

(** *** The WHERE loop *)

(** The three variables the condition loops update. *)
Record builder : Type := mkBuilder {
  paramCount : nat;
  values : list value;
  whereConditions : list text
}.

Definition isNullClause (b : builder) (key : string) : builder :=
  {| paramCount := paramCount b;
     values := values b;
     whereConditions := whereConditions b ++ [[Lit key; Lit " IS NULL"]] |}.

Definition inClause (b : builder) (key : string) (elems : list value) : builder :=
  let '(placeholders, paramCount') := takePlaceholders elems (paramCount b) in
  {| paramCount := paramCount';
     values := values b ++ elems;
     whereConditions :=
       whereConditions b
         ++ [[Lit key; Lit " IN ("] ++ join [Lit ", "] placeholders ++ [Lit ")"]] |}.

Definition operatorClause (b : builder) (key : string) (op v : value) : builder :=
  {| paramCount := S (paramCount b);
     values := values b ++ [v];
     whereConditions :=
       whereConditions b
         ++ [[Lit key; Lit " "; Lit (toString op); Lit " "; Param (paramCount b)]] |}.

Definition equalsClause (b : builder) (key : string) (v : value) : builder :=
  {| paramCount := S (paramCount b);
     values := values b ++ [v];
     whereConditions := whereConditions b ++ [[Lit key; Lit " = "; Param (paramCount b)]] |}.

(** Loop body of [getFromDB]. *)
Definition findCondition (b : builder) (entry : string * value) : builder :=
  let '(key, value) := entry in
  match value with
  | VNull => isNullClause b key
  | VArr elems => inClause b key elems
  | VObj props =>
      if truthy (get props "operator")
      then operatorClause b key (get props "operator") (get props "value")
      else equalsClause b key value
  | _ => equalsClause b key value
  end.

(** Loop body of [updateInDB] and [deleteFromDB]. *)
Definition mutateCondition (b : builder) (entry : string * value) : builder :=
  let '(key, value) := entry in
  match value with
  | VNull => isNullClause b key
  | VArr elems => inClause b key elems
  | _ => equalsClause b key value
  end.

(** *** getFromDB *)

Record options : Type := mkOptions {
  columns : option string;
  orderBy : option string;
  limit : value;
  offset : value;
  operator : option string
}.

Definition noOptions : options :=
  {| columns := None; orderBy := None; limit := VUndefined; offset := VUndefined;
     operator := None |}.

(** Destructuring default: taken when the property is [undefined]. *)
Definition orNull (v : value) : value :=
  match v with
  | VUndefined => VNull
  | _ => v
  end.

(** The statement under construction: [query], [values], [paramCount]. *)
Record draft : Type := mkDraft {
  query : text;
  dvalues : list value;
  dcount : nat
}.

Definition addWhere (table : string) (conditions : object) (opts : options) : draft :=
  let columns := orElse (columns opts) "*" in
  let operator := orElse (operator opts) "AND" in
  let query := [Lit "SELECT "; Lit columns; Lit " FROM "; Lit table] in
  if (0 <? length (keys conditions))%nat
  then
    let b := fold_left findCondition (entries conditions)
               {| paramCount := 1; values := []; whereConditions := [] |} in
    {| query := query ++ [Lit " WHERE "]
                  ++ join [Lit " "; Lit operator; Lit " "] (whereConditions b);
       dvalues := values b;
       dcount := paramCount b |}
  else {| query := query; dvalues := []; dcount := 1 |}.

Definition addOrderBy (opts : options) (d : draft) : draft :=
  match orderBy opts with
  | Some o =>
      if negb (String.eqb o "")
      then {| query := query d ++ [Lit " ORDER BY "; Lit o];
              dvalues := dvalues d; dcount := dcount d |}
      else d
  | None => d
  end.

Definition addLimit (opts : options) (d : draft) : draft :=
  let limit := orNull (limit opts) in
  if truthy limit
  then {| query := query d ++ [Lit " LIMIT "; Param (dcount d)];
          dvalues := dvalues d ++ [limit];
          dcount := S (dcount d) |}
  else d.

Definition addOffset (opts : options) (d : draft) : draft :=
  let offset := orNull (offset opts) in
  if truthy offset
  then {| query := query d ++ [Lit " OFFSET "; Param (dcount d)];
          dvalues := dvalues d ++ [offset];
          dcount := S (dcount d) |}
  else d.

Definition findDraft (table : string) (conditions : object) (opts : options) : draft :=
  addOffset opts (addLimit opts (addOrderBy opts (addWhere table conditions opts))).

Definition findStatement (table : string) (conditions : object) (opts : options)
  : text * list value :=
  let d := findDraft table conditions opts in (query d, dvalues d).

(** *** updateInDB *)

(** Loop body of the SET clause. The loop shares the counter and the
    value list with the WHERE loop that follows; its clauses ([setClause])
    are collected in the record's clause field. *)
Definition setField (b : builder) (entry : string * value) : builder :=
  let '(key, value) := entry in
  {| paramCount := S (paramCount b);
     values := values b ++ [value];
     whereConditions := whereConditions b ++ [[Lit key; Lit " = "; Param (paramCount b)]] |}.

Definition updateStatement (table : string) (data conditions : object) (returnFields : string)
  : text * list value :=
  let s := fold_left setField (entries data)
             {| paramCount := 1; values := []; whereConditions := [] |} in
  let setClause := whereConditions s in
  let w := fold_left mutateCondition (entries conditions)
             {| paramCount := paramCount s; values := values s; whereConditions := [] |} in
  ([Lit (LF ++ "      UPDATE "); Lit table; Lit (LF ++ "      SET ")]
     ++ join [Lit ", "] setClause
     ++ [Lit (LF ++ "      WHERE ")]
     ++ join [Lit " AND "] (whereConditions w)
     ++ [Lit (LF ++ "      RETURNING "); Lit returnFields; Lit (";" ++ LF ++ "    ")],
   values w).

(** *** deleteFromDB *)

Definition deleteStatement (table : string) (conditions : object) (returnFields : string)
  : text * list value :=
  let w := fold_left mutateCondition (entries conditions)
             {| paramCount := 1; values := []; whereConditions := [] |} in
  ([Lit (LF ++ "      DELETE FROM "); Lit table; Lit (LF ++ "      WHERE ")]
     ++ join [Lit " AND "] (whereConditions w)
     ++ [Lit (LF ++ "      RETURNING "); Lit returnFields; Lit (";" ++ LF ++ "    ")],
   values w).

(** ** Errors, the pool and the driver *)

(** A thrown object: the driver's errors carry a [code], the ones made
    with [new Error(message)] do not. *)
Record JsError : Type := mkError {
  code : option string;
  message : string
}.

(** [new Error(msg)]. *)
Definition Error (msg : string) : JsError := {| code := None; message := msg |}.

Inductive outcome (A : Type) : Type :=
| Returned (a : A)
| Thrown (e : JsError).

Arguments Returned {A} a.
Arguments Thrown {A} e.

(** What an operation does to the pool and the store, in order. *)
Inductive event : Type :=
| Connected
| Queried (sql : string) (params : list value)
| Released.

(** The collaborators: the pool hands out a client or fails, and the
    store answers a parameterized statement with rows or a coded error. *)
Record Store : Type := mkStore {
  connect : option JsError;
  execute : string -> list value -> outcome (list row);
  totalCount : Z;
  idleCount : Z;
  waitingCount : Z
}.

(** An asynchronous operation: it runs against a store, extends the log
    of events and settles with a value or a thrown error. *)
Definition M (A : Type) : Type := Store -> list event -> outcome A * list event.

Definition ret {A : Type} (a : A) : M A := fun _ log => (Returned a, log).

Definition throw {A : Type} (e : JsError) : M A := fun _ log => (Thrown e, log).

Definition bind {A B : Type} (m : M A) (k : A -> M B) : M B :=
  fun db log =>
    match m db log with
    | (Returned a, log') => k a db log'
    | (Thrown e, log') => (Thrown e, log')
    end.

Notation "x <- m ;; k" := (bind m (fun x => k))
  (at level 61, m at next level, right associativity).

(** [try { body } catch (error) { handler }]. *)
Definition tryCatch {A : Type} (body : M A) (handler : JsError -> M A) : M A :=
  fun db log =>
    match body db log with
    | (Returned a, log') => (Returned a, log')
    | (Thrown e, log') => handler e db log'
    end.

(** [try { body } catch (error) { handler } finally { finalizer }]. *)
Definition tryCatchFinally {A : Type}
  (body : M A) (handler : JsError -> M A) (finalizer : M unit) : M A :=
  fun db log =>
    let '(settled, log') := tryCatch body handler db log in
    match finalizer db log' with
    | (Returned _, log'') => (settled, log'')
    | (Thrown e, log'') => (Thrown e, log'')
    end.

(** [pool.connect()]. *)
Definition pool_connect : M unit :=
  fun db log =>
    match connect db with
    | None => (Returned tt, log ++ [Connected])
    | Some e => (Thrown e, log)
    end.

(** [client.query(query, values)], giving [result.rows]. *)
Definition client_query (sql : text) (params : list value) : M (list row) :=
  fun db log => (execute db (render sql) params, log ++ [Queried (render sql) params]).

(** [client.release()]. *)
Definition client_release : M unit :=
  fun _ log => (Returned tt, log ++ [Released]).

(** ** handleError *)

Definition handleError {A : Type} (operation : string) (error : JsError) : M A :=
  match code error with
  | Some c =>
      if String.eqb c "23505" then throw (Error "Record with this identifier already exists")
      else if String.eqb c "23503" then throw (Error "Referenced record does not exist")
      else if String.eqb c "23502" then throw (Error "Required field is missing")
      else if String.eqb c "42P01" then throw (Error "Table does not exist")
      else throw (Error ("Database operation failed: " ++ message error))
  | None => throw (Error ("Database operation failed: " ++ message error))
  end.

(** ** The operations *)

Definition addToDB (table : string) (data : object) (returnFields : option string) : M row :=
  _ <- pool_connect ;;
  tryCatchFinally
    (let '(query, values) := insertStatement table data (orElse returnFields "*") in
     rows <- client_query query values ;;
     match rows with
     | [] => throw (Error "Insert operation failed - no record returned")
     | first :: _ => ret first
     end)
    (fun error => handleError "addToDB" error)
    client_release.

Definition getFromDB (table : string) (conditions : object) (opts : options) : M (list row) :=
  _ <- pool_connect ;;
  tryCatchFinally
    (let '(query, values) := findStatement table conditions opts in
     rows <- client_query query values ;;
     ret rows)
    (fun error => handleError "getFromDB" error)
    client_release.

Definition updateInDB (table : string) (data conditions : object) (returnFields : option string)
  : M (list row) :=
  _ <- pool_connect ;;
  tryCatchFinally
    (if (length (keys conditions) =? 0)%nat
     then throw (Error "Update conditions are required to prevent updating all records")
     else if (length (keys data) =? 0)%nat
     then throw (Error "No data provided for update")
     else
       let '(query, values) :=
         updateStatement table data conditions (orElse returnFields "*") in
       rows <- client_query query values ;;
       if (length rows =? 0)%nat
       then throw (Error "No records found matching the update conditions")
       else ret rows)
    (fun error => handleError "updateInDB" error)
    client_release.

Definition deleteFromDB (table : string) (conditions : object) (returnFields : option string)
  : M (list row) :=
  _ <- pool_connect ;;
  tryCatchFinally
    (if (length (keys conditions) =? 0)%nat
     then throw (Error "Delete conditions are required to prevent deleting all records")
     else
       let '(query, values) := deleteStatement table conditions (orElse returnFields "*") in
       rows <- client_query query values ;;
       ret rows)
    (fun error => handleError "deleteFromDB" error)
    client_release.

(** Reading [result.rows[0].name]: a property of [undefined] cannot be read. *)
Definition firstRowField (rows : list row) (name : string) : M value :=
  match rows with
  | [] => throw (Error ("Cannot read properties of undefined (reading '" ++ name ++ "')"))
  | first :: _ => ret (get first name)
  end.

Definition testConnection : M value :=
  tryCatch
    (_ <- pool_connect ;;
     rows <- client_query [Lit "SELECT NOW() as current_time, version() as version"] [] ;;
     _ <- client_release ;;
     currentTime <- firstRowField rows "current_time" ;;
     version <- firstRowField rows "version" ;;
     fun db =>
       ret (VObj [("connected", VBool true);
                  ("currentTime", currentTime);
                  ("version", version);
                  ("poolStats",
                   VObj [("totalCount", VNum (totalCount db));
                         ("idleCount", VNum (idleCount db));
                         ("waitingCount", VNum (waitingCount db))])]) db)
    (fun error =>
       ret (VObj [("connected", VBool false); ("error", VStr (message error))])).

(** [module.exports]: the names a caller can [require]. *)
Definition module_exports : list string := ["addToDB"; "getFromDB"; "updateInDB"].

(** Every function the module declares. *)
Definition module_functions : list string :=
  ["handleError"; "addToDB"; "getFromDB"; "updateInDB"; "deleteFromDB";
   "testConnection"; "closeConnection"; "executeTransaction"].

(** ** The failure kinds of the specification *)

Inductive ErrorKind : Type :=
| ValidationError
| UnscopedMutationError
| NoRowsReturnedError
| NoMatchError
| DuplicateRecordError
| DanglingReferenceError
| MissingFieldError
| UnknownTableError
| OperationFailedError.

(** The module throws plain [Error] objects, so a caller can tell the
    kinds apart by message only. This reads the kind the specification
    names off the message the code constructs for it. *)
Definition error_kind (e : JsError) : option ErrorKind :=
  let m := message e in
  if String.eqb m "No data provided for update" then Some ValidationError
  else if String.eqb m "Update conditions are required to prevent updating all records"
  then Some UnscopedMutationError
  else if String.eqb m "Delete conditions are required to prevent deleting all records"
  then Some UnscopedMutationError
  else if String.eqb m "Insert operation failed - no record returned" then Some NoRowsReturnedError
  else if String.eqb m "No records found matching the update conditions" then Some NoMatchError
  else if String.eqb m "Record with this identifier already exists" then Some DuplicateRecordError
  else if String.eqb m "Referenced record does not exist" then Some DanglingReferenceError
  else if String.eqb m "Required field is missing" then Some MissingFieldError
  else if String.eqb m "Table does not exist" then Some UnknownTableError
  else if String.prefix "Database operation failed: " m then Some OperationFailedError
  else None.

(** The store's error signals, by the SQLSTATE codes the switch names. *)
Inductive signal : Type :=
| UniqueViolation
| ForeignKeyViolation
| NotNullViolation
| UndefinedTable
| OtherSignal.

Definition signal_of (e : JsError) : signal :=
  match code e with
  | Some c =>
      if String.eqb c "23505" then UniqueViolation
      else if String.eqb c "23503" then ForeignKeyViolation
      else if String.eqb c "23502" then NotNullViolation
      else if String.eqb c "42P01" then UndefinedTable
      else OtherSignal
  | None => OtherSignal
  end.

(** The table of section 4.3 of the specification. *)
Definition mapped_kind (s : signal) : ErrorKind :=
  match s with
  | UniqueViolation => DuplicateRecordError
  | ForeignKeyViolation => DanglingReferenceError
  | NotNullViolation => MissingFieldError
  | UndefinedTable => UnknownTableError
  | OtherSignal => OperationFailedError
  end.

(** * Vocabulary of the properties *)

(** ** The builder invariant *)

(** The placeholders of the clauses collected so far. *)
Definition slots (b : builder) : list nat := concat (map placeholders (whereConditions b)).

(** The values a condition entry binds, in [getFromDB]. *)
Definition findValues (entry : string * value) : list value :=
  match snd entry with
  | VNull => []
  | VArr elems => elems
  | VObj props =>
      if truthy (get props "operator") then [get props "value"] else [snd entry]
  | v => [v]
  end.

(** The values a condition entry binds, in [updateInDB] and [deleteFromDB]. *)
Definition mutateValues (entry : string * value) : list value :=
  match snd entry with
  | VNull => []
  | VArr elems => elems
  | v => [v]
  end.

(** A loop body [step] advances the counter by the number of values it
    pushes, and numbers its new placeholders from the counter on. *)
Definition advances (step : builder -> string * value -> builder)
  (pushed : string * value -> list value) : Prop :=
  forall b e,
    paramCount (step b e) = paramCount b + length (pushed e)
    /\ values (step b e) = values b ++ pushed e
    /\ slots (step b e) = slots b ++ seq (paramCount b) (length (pushed e)).

(** Placeholders and values of a statement agree: the placeholders are
    [$1 .. $n] in order of appearance, [n] being the number of values. *)
Definition numbered (stmt : text * list value) : Prop :=
  placeholders (fst stmt) = seq 1 (length (snd stmt)).

(** The counter is one past the values pushed so far, and the text so
    far holds exactly the placeholders [$1 ..] for them. *)
Definition draft_ok (d : draft) : Prop :=
  placeholders (query d) = seq 1 (length (dvalues d))
  /\ dcount d = S (length (dvalues d)).

(** ** Placeholders in the rendered text *)

Definition is_digit (c : ascii) : bool :=
  ((48 <=? nat_of_ascii c) && (nat_of_ascii c <=? 57))%nat.

Definition is_dollar (c : ascii) : bool := Ascii.eqb c "$".

Fixpoint digits_prefix (s : string) : string :=
  match s with
  | EmptyString => EmptyString
  | String c rest => if is_digit c then String c (digits_prefix rest) else EmptyString
  end.

(** The placeholders the store sees in a statement: each [$] that is
    followed by digits, with the number those digits spell. *)
Fixpoint scan (s : string) : list nat :=
  match s with
  | EmptyString => []
  | String c rest =>
      if is_dollar c
      then match digits_prefix rest with
           | EmptyString => scan rest
           | digits =>
               match NilEmpty.uint_of_string digits with
               | Some d => Nat.of_uint d :: scan rest
               | None => scan rest
               end
           end
      else scan rest
  end.

Fixpoint dollar_free (s : string) : bool :=
  match s with
  | EmptyString => true
  | String c rest => negb (is_dollar c) && dollar_free rest
  end.

(** The text is over, or goes on with something that is not a digit. *)
Definition starts_nondigit (s : string) : bool :=
  match s with
  | EmptyString => true
  | String c _ => negb (is_digit c)
  end.

(** A piece of text is well delimited before [after]: its verbatim parts
    hold no [$], and no digit follows the digits of a placeholder. *)
Fixpoint delimited (t : text) (after : string) : bool :=
  match t with
  | [] => true
  | Lit s :: rest => dollar_free s && delimited rest after
  | Param _ :: rest => starts_nondigit (render rest ++ after) && delimited rest after
  end.

(** A separator that holds no placeholder and opens with a non-digit. *)
Definition separates (sep : text) : Prop :=
  forall z, delimited sep z = true /\ starts_nondigit (render sep ++ z)%string = true.

Definition closed (clause : text) : Prop := delimited clause EmptyString = true.

(** The words of a condition entry that go into the text verbatim. *)
Definition findWords (entry : string * value) : list string :=
  fst entry ::
  match snd entry with
  | VObj props =>
      if truthy (get props "operator") then [toString (get props "operator")] else []
  | _ => []
  end.

Definition mutateWords (entry : string * value) : list string := [fst entry].

(** A loop body only adds closed clauses, for entries with clean words. *)
Definition keeps_closed (step : builder -> string * value -> builder)
  (words : string * value -> list string) : Prop :=
  forall b e,
    forallb dollar_free (words e) = true ->
    Forall closed (whereConditions b) ->
    Forall closed (whereConditions (step b e)).

(** The caller's words that each statement carries verbatim. *)
Definition insertWords (table : string) (data : object) (returnFields : string) : list string :=
  table :: returnFields :: keys data.

Definition findWordsAll (table : string) (conditions : object) (opts : options) : list string :=
  table :: orElse (columns opts) "*" :: orElse (operator opts) "AND"
        :: orElse (orderBy opts) "" :: flat_map findWords conditions.

Definition updateWords (table : string) (data conditions : object) (returnFields : string)
  : list string :=
  table :: returnFields :: flat_map mutateWords data ++ flat_map mutateWords conditions.

Definition deleteWords (table : string) (conditions : object) (returnFields : string)
  : list string :=
  table :: returnFields :: flat_map mutateWords conditions.

(** ** Clause templates *)

(** The clause [getFromDB] compiles an entry to when the counter is [p]. *)
Definition findClause (p : nat) (entry : string * value) : text :=
  let '(key, value) := entry in
  match value with
  | VNull => [Lit key; Lit " IS NULL"]
  | VArr elems =>
      [Lit key; Lit " IN ("]
        ++ join [Lit ", "] (map (fun i => [Param i]) (seq p (length elems)))
        ++ [Lit ")"]
  | VObj props =>
      if truthy (get props "operator")
      then [Lit key; Lit " "; Lit (toString (get props "operator")); Lit " "; Param p]
      else [Lit key; Lit " = "; Param p]
  | _ => [Lit key; Lit " = "; Param p]
  end.

(** The clauses of a whole condition set, the counter starting at [p]. *)
Fixpoint findClauses (p : nat) (es : list (string * value)) : list text :=
  match es with
  | [] => []
  | e :: rest => findClause p e :: findClauses (p + length (findValues e)) rest
  end.

(** ** Settled operations *)

(** The error [handleError] throws for a caught error. *)
Definition mapError (error : JsError) : JsError :=
  match signal_of error with
  | UniqueViolation => Error "Record with this identifier already exists"
  | ForeignKeyViolation => Error "Referenced record does not exist"
  | NotNullViolation => Error "Required field is missing"
  | UndefinedTable => Error "Table does not exist"
  | OtherSignal => Error ("Database operation failed: " ++ message error)
  end.

(** How a settled query ends an operation once the catch clause and the
    release have run. *)
Definition settle {A : Type} (r : outcome A) : outcome A :=
  match r with
  | Returned a => Returned a
  | Thrown e => Thrown (mapError e)
  end.

(** ** Sample stores and inputs *)

Definition sampleRow : row := [("design_id", VStr "D001"); ("client", VStr "John Doe")].

(** A store that answers every statement with one row. *)
Definition echoStore : Store :=
  {| connect := None; execute := fun _ _ => Returned [sampleRow];
     totalCount := 1; idleCount := 1; waitingCount := 0 |}.

(** A store in which no row matches. *)
Definition emptyStore : Store :=
  {| connect := None; execute := fun _ _ => Returned [];
     totalCount := 1; idleCount := 1; waitingCount := 0 |}.

(** A store that rejects every statement as malformed (SQLSTATE 42601). *)
Definition strictStore : Store :=
  {| connect := None;
     execute := fun _ _ => Thrown {| code := Some "42601"; message := "syntax error" |};
     totalCount := 1; idleCount := 1; waitingCount := 0 |}.

(** A pool that times out before handing out a client. *)
Definition saturatedStore : Store :=
  {| connect := Some (Error "timeout exceeded when trying to connect");
     execute := fun _ _ => Returned [];
     totalCount := 20; idleCount := 0; waitingCount := 5 |}.

(** What the numbering of a statement promises, spelled out. *)
Record numbering (stmt : text * list value) : Prop := {
  numbered_from_one :
    placeholders (fst stmt) = seq 1 (length (placeholders (fst stmt)));
  strictly_increasing : StronglySorted lt (placeholders (fst stmt));
  never_reused : NoDup (placeholders (fst stmt));
  one_per_value : length (placeholders (fst stmt)) = length (snd stmt);
  nth_for_nth :
    forall i v, nth_error (snd stmt) i = Some v ->
                nth_error (placeholders (fst stmt)) i = Some (S i)
}.

(** What the store reads in the statement text agrees with the value
    list: the placeholders found in the text are [$1 .. $n], [n] being
    the number of values. *)
Definition text_numbered (stmt : text * list value) : Prop :=
  scan (render (fst stmt)) = seq 1 (length (snd stmt)).

Definition sampleData : object := [("approved", VStr "Yes"); ("final_dress", VStr "Completed")].

Definition sampleConditions : object :=
  [("design_id", VStr "D001"); ("fabric", VArr [VStr "Cotton"; VStr "Silk"]);
   ("comments", VNull)].

Definition sampleOptions : options :=
  {| columns := None; orderBy := Some "created_at DESC"; limit := VNum 10;
     offset := VNum 5; operator := Some "OR" |}.

(** No statement among the events. *)
Definition no_query (events : list event) : Prop :=
  forall sql params, ~ In (Queried sql params) events.

Definition duplicateKey : JsError :=
  {| code := Some "23505";
     message := "duplicate key value violates unique constraint" |}.

(** A store in which the key of every insert is taken. *)
Definition takenStore : Store :=
  {| connect := None; execute := fun _ _ => Thrown duplicateKey;
     totalCount := 1; idleCount := 1; waitingCount := 0 |}.

(** The draft before LIMIT and OFFSET are looked at. *)
Definition findBase (table : string) (conditions : object) (opts : options) : draft :=
  addOrderBy opts (addWhere table conditions opts).

(** * The rest of the database module *)

(** ** executeTransaction *)

(** The caller's [operations] run against the client the transaction
    holds. *)
Definition executeTransaction {A : Type} (operations : M A) : M A :=
  _ <- pool_connect ;;
  tryCatchFinally
    (_ <- client_query [Lit "BEGIN"] [] ;;
     result <- operations ;;
     _ <- client_query [Lit "COMMIT"] [] ;;
     ret result)
    (fun error =>
       _ <- client_query [Lit "ROLLBACK"] [] ;;
       handleError "executeTransaction" error)
    client_release.

(** ** Vocabulary for the conditions of update and delete *)

(** The clause [updateInDB] and [deleteFromDB] compile an entry to when
    the counter is [p]. *)
Definition mutateClause (p : nat) (entry : string * value) : text :=
  let '(key, value) := entry in
  match value with
  | VNull => [Lit key; Lit " IS NULL"]
  | VArr elems =>
      [Lit key; Lit " IN ("]
        ++ join [Lit ", "] (map (fun i => [Param i]) (seq p (length elems)))
        ++ [Lit ")"]
  | _ => [Lit key; Lit " = "; Param p]
  end.

Fixpoint mutateClauses (p : nat) (es : list (string * value)) : list text :=
  match es with
  | [] => []
  | e :: rest => mutateClause p e :: mutateClauses (p + length (mutateValues e)) rest
  end.

(** The SET clauses of [updateInDB], the counter starting at [p]. *)
Fixpoint setClauses (p : nat) (es : list (string * value)) : list text :=
  match es with
  | [] => []
  | (key, _) :: rest => [Lit key; Lit " = "; Param p] :: setClauses (S p) rest
  end.

(** Renumbering: every placeholder moved up by [k]. *)
Definition shift (k : nat) (t : text) : text :=
  map (fun f => match f with Lit s => Lit s | Param n => Param (n + k) end) t.

(** What of a condition value reaches the statement text: which template
    it selects and, for a sequence, how many elements it has. *)
Inductive shape : Type :=
| IsNull
| Among (count : nat)
| Compared (op : string)
| Equal.

Definition findShape (v : value) : shape :=
  match v with
  | VNull => IsNull
  | VArr elems => Among (length elems)
  | VObj props =>
      if truthy (get props "operator")
      then Compared (toString (get props "operator"))
      else Equal
  | _ => Equal
  end.

Definition mutateShape (v : value) : shape :=
  match v with
  | VNull => IsNull
  | VArr elems => Among (length elems)
  | _ => Equal
  end.


(** The number of releases among the events. *)
Definition releases (events : list event) : nat :=
  length (filter (fun ev => match ev with Released => true | _ => false end) events).

(** The number of statements among the events. *)
Definition statements (events : list event) : nat :=
  length (filter (fun ev => match ev with Queried _ _ => true | _ => false end) events).

(** A store whose statements all succeed with no row, except COMMIT. *)
Definition failingCommitStore : Store :=
  {| connect := None;
     execute := fun sql _ =>
       if String.eqb sql "COMMIT"
       then Thrown {| code := Some "40001"; message := "could not serialize access" |}
       else Returned [];
     totalCount := 1; idleCount := 0; waitingCount := 0 |}.

(** A store that has lost its connection: every statement fails. *)
Definition brokenStore : Store :=
  {| connect := None;
     execute := fun sql _ =>
       Thrown {| code := None; message := ("Connection terminated: " ++ sql)%string |};
     totalCount := 1; idleCount := 0; waitingCount := 0 |}.

(** A store that refuses ROLLBACK. *)
Definition noRollbackStore : Store :=
  {| connect := None;
     execute := fun sql _ =>
       if String.eqb sql "ROLLBACK"
       then Thrown {| code := Some "25P01"; message := "no transaction in progress" |}
       else Returned [];
     totalCount := 1; idleCount := 0; waitingCount := 0 |}.

(** Further sample inputs. *)
Definition otherData : object := [("approved", VStr "No"); ("final_dress", VNull)].

Definition otherConditions : object :=
  [("design_id", VStr "x' OR 1=1 --"); ("fabric", VArr [VNum 1; VNum 2]);
   ("comments", VNull)].


(** * The helpers of the HTTP layer *)

(** Strings are read as sequences of code units below 256. *)

(** The property names every ordinary object inherits. The helpers below
    read objects through their own properties, which is what the source
    does for every other name. *)
Definition inheritedNames : list string :=
  ["constructor"; "__proto__"; "hasOwnProperty"; "isPrototypeOf"; "propertyIsEnumerable";
   "toLocaleString"; "toString"; "valueOf"; "__defineGetter__"; "__defineSetter__";
   "__lookupGetter__"; "__lookupSetter__"].

Definition ownName (name : string) : bool :=
  negb (existsb (String.eqb name) inheritedNames).

(** ** Validator *)

(** White space and line terminators, as [trim] sees them. *)
Definition is_space (c : ascii) : bool :=
  let n := nat_of_ascii c in
  ((9 <=? n) && (n <=? 13) || (n =? 32) || (n =? 160))%nat.

Fixpoint trimStart (s : string) : string :=
  match s with
  | EmptyString => EmptyString
  | String c rest => if is_space c then trimStart rest else s
  end.

Definition reverse (s : string) : string :=
  string_of_list_ascii (List.rev (list_ascii_of_string s)).

Definition trimEnd (s : string) : string := reverse (trimStart (reverse s)).

Definition trim (s : string) : string := trimEnd (trimStart s).

(** The filter of [validateRequiredFields]. *)
Definition isMissing (data : object) (field : string) : bool :=
  negb (truthy (get data field))
  || match get data field with
     | VStr s => String.eqb (trim s) ""
     | _ => false
     end.

Definition validateRequiredFields (data : object) (requiredFields : list string)
  : outcome unit :=
  let missingFields := filter (isMissing data) requiredFields in
  if (0 <? length missingFields)%nat
  then Thrown (Error ("Missing required fields: " ++ String.concat ", " missingFields))
  else Returned tt.

(** What the routes read of an uploaded file. *)
Record upload : Type := mkUpload {
  mimetype : string;
  size : Z
}.

Definition FILE_SIZE_LIMIT : Z := 10 * 1024 * 1024.

Definition ALLOWED_IMAGE_TYPES : list string :=
  ["image/jpeg"; "image/png"; "image/gif"; "image/webp"; "image/bmp"; "image/tiff";
   "image/svg+xml"].

Definition validateFile (file : option upload) : outcome unit :=
  match file with
  | None => Thrown (Error "No file uploaded")
  | Some f =>
      if negb (String.prefix "image/" (mimetype f))
      then Thrown (Error "Only image files are allowed")
      else if (size f >? FILE_SIZE_LIMIT)%Z
      then Thrown (Error ("File too large. Maximum size is "
                            ++ decimalZ (FILE_SIZE_LIMIT / (1024 * 1024)) ++ "MB"))
      else Returned tt
  end.

(** The [fileFilter] of the upload middleware: what it hands to its
    callback. *)
Definition fileFilter (file : upload) : outcome bool :=
  if String.prefix "image/" (mimetype file)
  then Returned true
  else Thrown (Error "Only image files are allowed").

(** The [limits.fileSize] of the upload middleware. *)
Definition uploadFileSize : Z := 10 * 1024 * 1024.

Definition isAlphanumeric (c : ascii) : bool :=
  let n := nat_of_ascii c in
  ((97 <=? n) && (n <=? 122) || (65 <=? n) && (n <=? 90) || (48 <=? n) && (n <=? 57))%nat.

(** [str.replace(/[^a-zA-Z0-9]/g, "_")]. *)
Fixpoint sanitizeFilename (str : string) : string :=
  match str with
  | EmptyString => EmptyString
  | String c rest =>
      String (if isAlphanumeric c then c else "_"%char) (sanitizeFilename rest)
  end.

(** ** The object key of an upload *)

(** The key [uploadImageToS3] stores an image under: [timestamp] is the
    clock reading and [fileExtension] what [path.extname] gave for the
    file name. *)
Definition s3KeyFor (clientName : string) (timestamp : Z) (fileExtension : string) : string :=
  "worldvastradesigns/" ++ sanitizeFilename clientName ++ "_" ++ decimalZ timestamp
    ++ fileExtension.

(** ** getContentType *)

Definition toLowerCaseChar (c : ascii) : ascii :=
  let n := nat_of_ascii c in
  if ((65 <=? n) && (n <=? 90) || (192 <=? n) && (n <=? 222) && negb (n =? 215))%nat
  then ascii_of_nat (n + 32)
  else c.

Fixpoint toLowerCase (s : string) : string :=
  match s with
  | EmptyString => EmptyString
  | String c rest => String (toLowerCaseChar c) (toLowerCase rest)
  end.

Definition mimeTypes : list (string * string) :=
  [(".jpg", "image/jpeg"); (".jpeg", "image/jpeg"); (".png", "image/png");
   (".gif", "image/gif"); (".webp", "image/webp"); (".bmp", "image/bmp");
   (".tiff", "image/tiff"); (".svg", "image/svg+xml")].

Fixpoint lookup (table : list (string * string)) (name : string) : option string :=
  match table with
  | [] => None
  | (k, v) :: rest => if String.eqb k name then Some v else lookup rest name
  end.

Definition getContentType (extension : string) : string :=
  orElse (lookup mimeTypes (toLowerCase extension)) "application/octet-stream".

(** The character [c] occurs in [s]. *)
Fixpoint occurs (c : ascii) (s : string) : bool :=
  match s with
  | EmptyString => false
  | String d rest => Ascii.eqb c d || occurs c rest
  end.

(** How often the character [c] occurs in [s]. *)
Fixpoint count_char (c : ascii) (s : string) : nat :=
  match s with
  | EmptyString => 0
  | String d rest => (if Ascii.eqb c d then 1 else 0) + count_char c rest
  end.

(** Every character of [s] satisfies [p]. *)
Fixpoint all_chars (p : ascii -> bool) (s : string) : bool :=
  match s with
  | EmptyString => true
  | String c rest => p c && all_chars p rest
  end.

(** What [path.extname] gives: nothing, or a suffix that starts with a
    dot. *)
Definition isExtension (extension : string) : bool :=
  match extension with
  | EmptyString => true
  | String c _ => Ascii.eqb c "."
  end.

(** * The sheet helpers of app.js *)

(** ** Column letters and column numbers *)

(** [charCodeAt] and [String.fromCharCode], on code units below 256. *)
Definition charCode (c : ascii) : Z := Z.of_nat (nat_of_ascii c).

Definition fromCharCode (n : Z) : ascii := ascii_of_nat (Z.to_nat n).

(** The loop of [columnToNumber], from the character it has reached. *)
Fixpoint columnToNumber_from (column : string) (result : Z) : Z :=
  match column with
  | EmptyString => result
  | String c rest =>
      columnToNumber_from rest (result * 26 + (charCode c - charCode "A" + 1))%Z
  end.

Definition columnToNumber (column : string) : Z := columnToNumber_from column 0.

(** The loop of [numberToColumn]. Each round makes [number] smaller, so
    the rounds [numberToColumn] allows, as many as [number] itself, are
    never used up. *)
Fixpoint numberToColumn_loop (rounds : nat) (number : Z) (result : string) : string :=
  match rounds with
  | O => result
  | S rounds' =>
      if (number >? 0)%Z
      then
        let number' := (number - 1)%Z in
        numberToColumn_loop rounds' (number' / 26)%Z
          (String (fromCharCode (charCode "A" + Z.rem number' 26)) result)
      else result
  end.

Definition numberToColumn (number : Z) : string :=
  numberToColumn_loop (Z.to_nat number) number EmptyString.

(** The integers a JavaScript number holds exactly. *)
Definition MAX_SAFE_INTEGER : Z := 2 ^ 53 - 1.

Definition isUpper (c : ascii) : bool :=
  ((65 <=? nat_of_ascii c) && (nat_of_ascii c <=? 90))%nat.

(** ** Fabric costs *)

(** What a failed request carries: the message of the error and, when
    the service answered, the message in its answer
    ([error.response?.data?.error?.message]). *)
Record RequestError : Type := mkRequestError {
  responseMessage : option string;
  requestMessage : string
}.

(** How the request for a range of the sheet ends: with
    [response.data.values], absent when the range is empty, or with an
    error. Cells are strings. *)
Inductive reply : Type :=
| Replied (rows : option (list (list string)))
| Failed (error : RequestError).

(** [error.response?.data?.error?.message || error.message]. *)
Definition messageOf (error : RequestError) : string :=
  match responseMessage error with
  | Some m => if String.eqb m "" then requestMessage error else m
  | None => requestMessage error
  end.

(** [row[i] || ""]. *)
Definition cellOr (row : list string) (i : nat) : string :=
  match nth_error row i with
  | Some s => s
  | None => ""
  end.

(** [object[name] = v] on an own property: an existing property keeps
    its place and takes the new value, a new one is added. *)
Fixpoint setProperty (o : object) (name : string) (v : value) : object :=
  match o with
  | [] => [(name, v)]
  | (k, w) :: rest =>
      if String.eqb k name then (k, v) :: rest else (k, w) :: setProperty rest name v
  end.

Section FabricCosts.

(** [parseFloat(cell) || 0], the cell being absent when the row is short. *)
Variable costOf : option string -> value.

Definition fabricEntry (row : list string) : value :=
  VObj [("costPerMeter", costOf (nth_error row 1));
        ("supplier", VStr (cellOr row 2));
        ("description", VStr (cellOr row 3))].

(** The body of [dataRows.forEach]. *)
Definition addFabricRow (fabricCosts : object) (row : list string) : object :=
  match nth_error row 0 with
  | Some fabricType =>
      if negb (String.eqb fabricType "")
      then setProperty fabricCosts fabricType (fabricEntry row)
      else fabricCosts
  | None => fabricCosts
  end.

Definition getFabricCosts (response : reply) : outcome object :=
  match response with
  | Replied None => Returned []
  | Replied (Some []) => Returned []
  | Replied (Some (headers :: dataRows)) => Returned (fold_left addFabricRow dataRows [])
  | Failed error => Thrown (Error ("Error getting fabric costs: " ++ messageOf error))
  end.

(** [{ fabricType: fabricType, ...fabricData }]. *)
Definition withFabricType (fabricType : string) (fabricData : value) : value :=
  match fabricData with
  | VObj props =>
      VObj (fold_left (fun o kv => setProperty o (fst kv) (snd kv)) props
              [("fabricType", VStr fabricType)])
  | _ => VObj [("fabricType", VStr fabricType)]
  end.

Definition getFabricCost (response : reply) (fabricType : string) : outcome value :=
  match getFabricCosts response with
  | Returned fabricCosts =>
      let fabricData := get fabricCosts fabricType in
      if truthy fabricData
      then Returned (withFabricType fabricType fabricData)
      else Returned VNull
  | Thrown error => Thrown (Error ("Error getting fabric cost: " ++ message error))
  end.

(** The data rows that name the fabric type [fabricType]. *)
Definition namesFabric (fabricType : string) (row : list string) : bool :=
  match nth_error row 0 with
  | Some s => String.eqb s fabricType && negb (String.eqb s "")
  | None => false
  end.

End FabricCosts.

(** A sample sheet, and a reading of its cost cells. *)
Definition fabricSheet : list (list string) :=
  [["Fabric Type"; "Cost"; "Supplier"; "Description"];
   ["Cotton"; "120"; "Arvind"];
   [""; "99"];
   ["Silk"; "900"; "Mysore"; "raw"];
   ["Cotton"; "150"]].

Definition wholeCost (cell : option string) : value :=
  match cell with
  | Some "120" => VNum 120
  | Some "150" => VNum 150
  | Some "900" => VNum 900
  | _ => VNum 0
  end.

(** * Properties *)

Example find_example :
  let '(q, vs) :=
    findStatement "designs"
      [("approved", VArr [VStr "Yes"; VStr "Pending"]); ("fabric", VStr "Cotton")]
      {| columns := Some "design_id, client"; orderBy := Some "created_at DESC";
         limit := VNum 20; offset := VUndefined; operator := None |} in
  render q = "SELECT design_id, client FROM designs WHERE approved IN ($1, $2) AND fabric = $3 ORDER BY created_at DESC LIMIT $4"
  /\ vs = [VStr "Yes"; VStr "Pending"; VStr "Cotton"; VNum 20].
Proof. vm_compute. split; reflexivity. Qed.

(** ** Placeholders of composed text *)

Lemma placeholders_app (a b : text) :
  placeholders (a ++ b) = placeholders a ++ placeholders b.
Proof.
  induction a as [|[s|n] a IH]; simpl; [reflexivity | exact IH | now rewrite IH].
Qed.

Lemma placeholders_join (sep : text) (parts : list text) :
  placeholders sep = [] ->
  placeholders (join sep parts) = concat (map placeholders parts).
Proof.
  intros Hsep. induction parts as [|p [|q rest] IH].
  - reflexivity.
  - simpl. now rewrite app_nil_r.
  - change (join sep (p :: q :: rest)) with (p ++ sep ++ join sep (q :: rest)).
    rewrite !placeholders_app, Hsep, IH. reflexivity.
Qed.

Lemma placeholders_literals (words : list string) :
  concat (map placeholders (map (fun c => [Lit c]) words)) = [].
Proof. induction words; simpl; auto. Qed.

Lemma map_from_placeholders {A : Type} (l : list A) (index : nat) :
  concat (map placeholders (map_from (fun _ i => [Param (i + 1)]) index l))
  = seq (S index) (length l).
Proof.
  revert index. induction l as [|x l IH]; intros index; simpl.
  - reflexivity.
  - rewrite IH. f_equal. lia.
Qed.

Lemma takePlaceholders_spec {A : Type} (elems : list A) (p : nat) :
  takePlaceholders elems p
  = (map (fun i => [Param i]) (seq p (length elems)), p + length elems).
Proof.
  revert p. induction elems as [|x elems IH]; intros p; simpl.
  - f_equal. lia.
  - rewrite IH. f_equal. lia.
Qed.

Lemma placeholders_params (l : list nat) :
  concat (map placeholders (map (fun i => [Param i]) l)) = l.
Proof. induction l; simpl; congruence. Qed.

(** ** The builder invariant *)

Lemma slots_snoc (b : builder) (clause : text) (pc : nat) (vs : list value) :
  slots {| paramCount := pc; values := vs; whereConditions := whereConditions b ++ [clause] |}
  = slots b ++ placeholders clause.
Proof.
  unfold slots. simpl. rewrite map_app, concat_app. simpl. now rewrite app_nil_r.
Qed.

Lemma isNullClause_advances b key :
  paramCount (isNullClause b key) = paramCount b + 0
  /\ values (isNullClause b key) = values b ++ []
  /\ slots (isNullClause b key) = slots b ++ seq (paramCount b) 0.
Proof.
  unfold isNullClause. rewrite slots_snoc. simpl.
  rewrite Nat.add_0_r, !app_nil_r. auto.
Qed.

Lemma inClause_advances b key elems :
  paramCount (inClause b key elems) = paramCount b + length elems
  /\ values (inClause b key elems) = values b ++ elems
  /\ slots (inClause b key elems) = slots b ++ seq (paramCount b) (length elems).
Proof.
  unfold inClause. rewrite takePlaceholders_spec, slots_snoc. simpl.
  repeat split.
  rewrite placeholders_app, placeholders_join by reflexivity.
  rewrite placeholders_params. simpl. now rewrite app_nil_r.
Qed.

Lemma equalsClause_advances b key v :
  paramCount (equalsClause b key v) = paramCount b + 1
  /\ values (equalsClause b key v) = values b ++ [v]
  /\ slots (equalsClause b key v) = slots b ++ seq (paramCount b) 1.
Proof.
  unfold equalsClause. rewrite slots_snoc. simpl. repeat split. lia.
Qed.

Lemma operatorClause_advances b key op v :
  paramCount (operatorClause b key op v) = paramCount b + 1
  /\ values (operatorClause b key op v) = values b ++ [v]
  /\ slots (operatorClause b key op v) = slots b ++ seq (paramCount b) 1.
Proof.
  unfold operatorClause. rewrite slots_snoc. simpl. repeat split. lia.
Qed.

Lemma findCondition_advances : advances findCondition findValues.
Proof.
  intros b [key v]. unfold findCondition, findValues. simpl.
  destruct v; try apply equalsClause_advances.
  - apply isNullClause_advances.
  - apply inClause_advances.
  - destruct (truthy (get props "operator")).
    + apply operatorClause_advances.
    + apply equalsClause_advances.
Qed.

Lemma mutateCondition_advances : advances mutateCondition mutateValues.
Proof.
  intros b [key v]. unfold mutateCondition, mutateValues. simpl.
  destruct v; try apply equalsClause_advances.
  - apply isNullClause_advances.
  - apply inClause_advances.
Qed.

Lemma setField_advances : advances setField (fun e => [snd e]).
Proof.
  intros b [key v]. unfold setField. rewrite slots_snoc. simpl. repeat split. lia.
Qed.

(** The loop as a whole. *)
Lemma fold_advances step pushed (es : list (string * value)) (b : builder) :
  advances step pushed ->
  let b' := fold_left step es b in
  paramCount b' = paramCount b + length (flat_map pushed es)
  /\ values b' = values b ++ flat_map pushed es
  /\ slots b' = slots b ++ seq (paramCount b) (length (flat_map pushed es)).
Proof.
  intros Hstep. revert b. induction es as [|e es IH]; intros b; simpl.
  - rewrite Nat.add_0_r, !app_nil_r. auto.
  - destruct (Hstep b e) as (Hc & Hv & Hs).
    destruct (IH (step b e)) as (Hc' & Hv' & Hs').
    rewrite Hc', Hv', Hs', Hc, Hv, Hs, length_app, seq_app, <- !app_assoc.
    repeat split. lia.
Qed.

(** ** Numbering of a whole statement *)

Lemma insertStatement_numbered table data returnFields :
  numbered (insertStatement table data returnFields).
Proof.
  unfold numbered, insertStatement, mapi. cbn [fst snd].
  rewrite !placeholders_app, !placeholders_join by reflexivity.
  rewrite placeholders_literals, map_from_placeholders.
  unfold keys, vals. rewrite !length_map. cbn [placeholders app].
  now rewrite app_nil_r.
Qed.

Lemma updateStatement_numbered table data conditions returnFields :
  numbered (updateStatement table data conditions returnFields).
Proof.
  unfold numbered, updateStatement, entries. cbn [fst snd].
  rewrite !placeholders_app, !placeholders_join by reflexivity.
  cbn [placeholders app]. rewrite app_nil_r.
  pose proof (fold_advances setField _ data
                {| paramCount := 1; values := []; whereConditions := [] |}
                setField_advances) as (Hc & Hv & Hs).
  set (s := fold_left setField data _) in *.
  pose proof (fold_advances mutateCondition _ conditions
                {| paramCount := paramCount s; values := values s; whereConditions := [] |}
                mutateCondition_advances) as (Hc' & Hv' & Hs').
  set (w := fold_left mutateCondition conditions _) in *.
  unfold slots in Hs, Hs'. simpl in *.
  rewrite Hs, Hs', Hv', Hv, Hc, !length_app, seq_app. reflexivity.
Qed.

Lemma deleteStatement_numbered table conditions returnFields :
  numbered (deleteStatement table conditions returnFields).
Proof.
  unfold numbered, deleteStatement, entries. cbn [fst snd].
  rewrite !placeholders_app, !placeholders_join by reflexivity.
  cbn [placeholders app]. rewrite app_nil_r.
  pose proof (fold_advances mutateCondition _ conditions
                {| paramCount := 1; values := []; whereConditions := [] |}
                mutateCondition_advances) as (Hc & Hv & Hs).
  set (w := fold_left mutateCondition conditions _) in *.
  unfold slots in Hs. simpl in *.
  rewrite Hs, Hv. reflexivity.
Qed.

(** ** getFromDB: the draft invariant *)

Lemma addWhere_values table conditions opts :
  dvalues (addWhere table conditions opts) = flat_map findValues conditions.
Proof.
  unfold addWhere, keys, entries. rewrite length_map.
  destruct conditions as [|e rest]; [reflexivity|].
  cbn [length Nat.ltb Nat.leb dvalues].
  pose proof (fold_advances findCondition _ (e :: rest)
                {| paramCount := 1; values := []; whereConditions := [] |}
                findCondition_advances) as (_ & Hv & _).
  exact Hv.
Qed.

Lemma addWhere_ok table conditions opts : draft_ok (addWhere table conditions opts).
Proof.
  unfold draft_ok, addWhere, keys, entries. rewrite length_map.
  destruct conditions as [|e rest]; [split; reflexivity|].
  cbn [length Nat.ltb Nat.leb dvalues query dcount].
  pose proof (fold_advances findCondition _ (e :: rest)
                {| paramCount := 1; values := []; whereConditions := [] |}
                findCondition_advances) as (Hc & Hv & Hs).
  set (b := fold_left findCondition (e :: rest) _) in *.
  unfold slots in Hs. cbn [paramCount values whereConditions map concat app] in Hc, Hv, Hs.
  split.
  - rewrite !placeholders_app, placeholders_join by reflexivity.
    cbn [placeholders app]. rewrite Hs, Hv. reflexivity.
  - rewrite Hc, Hv. reflexivity.
Qed.

Lemma addOrderBy_ok opts d : draft_ok d -> draft_ok (addOrderBy opts d).
Proof.
  unfold draft_ok, addOrderBy. intros [Hp Hc].
  destruct (orderBy opts) as [o|]; [|auto].
  destruct (negb (String.eqb o "")); cbn [query dvalues dcount]; [|auto].
  rewrite placeholders_app. cbn [placeholders]. rewrite app_nil_r. auto.
Qed.

Lemma push_param_ok (d : draft) (word : string) (v : value) :
  draft_ok d ->
  draft_ok {| query := query d ++ [Lit word; Param (dcount d)];
              dvalues := dvalues d ++ [v];
              dcount := S (dcount d) |}.
Proof.
  unfold draft_ok. intros [Hp Hc]. cbn [query dvalues dcount].
  rewrite placeholders_app, length_app, seq_app, Hp, Hc. cbn [placeholders length seq].
  split; [reflexivity | lia].
Qed.

Lemma addLimit_ok opts d : draft_ok d -> draft_ok (addLimit opts d).
Proof.
  intros H. unfold addLimit. destruct (truthy (orNull (limit opts))); [|exact H].
  now apply push_param_ok.
Qed.

Lemma addOffset_ok opts d : draft_ok d -> draft_ok (addOffset opts d).
Proof.
  intros H. unfold addOffset. destruct (truthy (orNull (offset opts))); [|exact H].
  now apply push_param_ok.
Qed.

Lemma findDraft_ok table conditions opts : draft_ok (findDraft table conditions opts).
Proof.
  unfold findDraft.
  apply addOffset_ok, addLimit_ok, addOrderBy_ok, addWhere_ok.
Qed.

Lemma findStatement_numbered table conditions opts :
  numbered (findStatement table conditions opts).
Proof.
  unfold numbered, findStatement. cbn [fst snd]. apply findDraft_ok.
Qed.

(** ** Reading the placeholders back from the rendered text *)

Lemma render_app (a b : text) : render (a ++ b) = (render a ++ render b)%string.
Proof.
  induction a as [|f a IH]; simpl; [reflexivity|].
  rewrite IH. induction (render_frag f); simpl; congruence.
Qed.

Lemma string_app_assoc (a b c : string) : ((a ++ b) ++ c = a ++ (b ++ c))%string.
Proof. induction a; simpl; congruence. Qed.

Lemma scan_dollar_free (s r : string) :
  dollar_free s = true -> scan (s ++ r)%string = scan r.
Proof.
  induction s as [|c s IH]; simpl; [reflexivity|].
  intros H. apply andb_true_iff in H as [Hc Hs].
  apply negb_true_iff in Hc. rewrite Hc. auto.
Qed.

Lemma digits_prefix_nondigit (r : string) :
  starts_nondigit r = true -> digits_prefix r = EmptyString.
Proof.
  destruct r as [|c r]; simpl; [reflexivity|].
  intros H. apply negb_true_iff in H. now rewrite H.
Qed.

Lemma digits_prefix_uint (d : uint) (r : string) :
  starts_nondigit r = true ->
  digits_prefix (NilEmpty.string_of_uint d ++ r)%string = NilEmpty.string_of_uint d.
Proof.
  intros Hr. induction d; simpl;
    [now apply digits_prefix_nondigit | rewrite IHd; reflexivity ..].
Qed.

Lemma uint_dollar_free (d : uint) : dollar_free (NilEmpty.string_of_uint d) = true.
Proof. induction d; simpl; auto. Qed.

Lemma to_uint_nonnil (n : nat) : Nat.to_uint n <> Nil.
Proof.
  rewrite <- (DecimalNat.Unsigned.of_to n) at 1.
  rewrite DecimalNat.Unsigned.to_of. apply DecimalFacts.unorm_nonnil.
Qed.

Lemma decimal_nonempty (n : nat) : decimal n <> EmptyString.
Proof.
  unfold decimal. pose proof (to_uint_nonnil n) as H.
  destruct (Nat.to_uint n); simpl; congruence.
Qed.

Lemma scan_param (n : nat) (r : string) :
  starts_nondigit r = true ->
  scan (render_frag (Param n) ++ r)%string = n :: scan r.
Proof.
  intros Hr. unfold render_frag, decimal.
  cbn [append scan is_dollar Ascii.eqb Bool.eqb].
  rewrite digits_prefix_uint by exact Hr.
  pose proof (decimal_nonempty n) as Hne. unfold decimal in Hne.
  pose proof (DecimalString.NilEmpty.usu (Nat.to_uint n)) as Hu.
  destruct (NilEmpty.string_of_uint (Nat.to_uint n)) eqn:E; [congruence|].
  rewrite Hu, DecimalNat.Unsigned.of_to.
  f_equal. rewrite <- E. apply scan_dollar_free, uint_dollar_free.
Qed.

(** On well delimited text, scanning the rendered string finds exactly
    the placeholders the builder printed. *)
Lemma scan_render (t : text) (after : string) :
  delimited t after = true ->
  scan (render t ++ after)%string = placeholders t ++ scan after.
Proof.
  induction t as [|[s|n] t IH]; cbn [render placeholders delimited]; intros H.
  - reflexivity.
  - apply andb_true_iff in H as [Hs Ht]. cbn [render_frag].
    rewrite string_app_assoc, scan_dollar_free by exact Hs. auto.
  - apply andb_true_iff in H as [Hs Ht].
    rewrite string_app_assoc, scan_param by exact Hs.
    rewrite IH by exact Ht. reflexivity.
Qed.

(** *** Delimitation of composed text *)

Lemma starts_nondigit_app (r x y : string) :
  starts_nondigit (r ++ x)%string = true ->
  starts_nondigit y = true ->
  starts_nondigit (r ++ y)%string = true.
Proof. destruct r; simpl; auto. Qed.

Lemma delimited_weaken (t : text) (x y : string) :
  delimited t x = true -> starts_nondigit y = true -> delimited t y = true.
Proof.
  intros H Hy. induction t as [|[s|n] t IH]; cbn [delimited] in *.
  - reflexivity.
  - apply andb_true_iff in H as [Hs Ht]. rewrite Hs. auto.
  - apply andb_true_iff in H as [Hs Ht].
    rewrite (starts_nondigit_app _ _ _ Hs Hy). auto.
Qed.

Lemma delimited_app (a b : text) (after : string) :
  delimited (a ++ b) after
  = delimited a (render b ++ after)%string && delimited b after.
Proof.
  induction a as [|[s|n] a IH].
  - reflexivity.
  - change (delimited ((Lit s :: a) ++ b) after)
      with (dollar_free s && delimited (a ++ b) after).
    rewrite IH. cbn [delimited]. now rewrite andb_assoc.
  - change (delimited ((Param n :: a) ++ b) after)
      with (starts_nondigit (String.append (render (a ++ b)) after)
            && delimited (a ++ b) after).
    rewrite IH, render_app, string_app_assoc. cbn [delimited]. now rewrite andb_assoc.
Qed.

Lemma delimited_join (sep : text) (parts : list text) (after : string) :
  separates sep ->
  Forall (fun p => delimited p EmptyString = true) parts ->
  starts_nondigit after = true ->
  delimited (join sep parts) after = true.
Proof.
  intros Hsep Hparts Hafter. induction Hparts as [|p rest Hp Hrest IH].
  - reflexivity.
  - destruct rest as [|q rest].
    + cbn [join]. now apply delimited_weaken with (x := EmptyString).
    + change (join sep (p :: q :: rest)) with (p ++ sep ++ join sep (q :: rest)).
      rewrite !delimited_app, IH, andb_true_r.
      apply andb_true_iff. split.
      * apply delimited_weaken with (x := EmptyString); [exact Hp|].
        rewrite render_app, string_app_assoc. apply Hsep.
      * apply Hsep.
Qed.

Lemma comma_separates : separates [Lit ", "].
Proof. intros z. split; reflexivity. Qed.

Lemma and_separates : separates [Lit " AND "].
Proof. intros z. split; reflexivity. Qed.

Lemma operator_separates (op : string) :
  dollar_free op = true -> separates [Lit " "; Lit op; Lit " "].
Proof.
  intros H z. split; [|reflexivity].
  cbn [delimited]. rewrite H. reflexivity.
Qed.

(** *** Delimitation of the clauses *)

Lemma closed_params (l : list nat) : Forall closed (map (fun i => [Param i]) l).
Proof. induction l; constructor; auto. reflexivity. Qed.

Lemma closed_literals (words : list string) :
  forallb dollar_free words = true -> Forall closed (map (fun c => [Lit c]) words).
Proof.
  induction words as [|w words IH]; simpl; intros H; constructor.
  - apply andb_true_iff in H as [Hw _]. unfold closed. cbn [delimited]. now rewrite Hw.
  - apply andb_true_iff in H as [_ Hws]. auto.
Qed.

Lemma closed_map_from {A : Type} (l : list A) (index : nat) :
  Forall closed (map_from (fun _ i => [Param (i + 1)]) index l).
Proof.
  revert index. induction l; intros index; constructor; auto. reflexivity.
Qed.

Lemma closed_snoc (clauses : list text) (clause : text) :
  Forall closed clauses -> closed clause -> Forall closed (clauses ++ [clause]).
Proof. intros H Hc. apply Forall_app. split; [exact H | constructor; auto]. Qed.

Lemma isNullClause_closed b key :
  dollar_free key = true -> Forall closed (whereConditions b) ->
  Forall closed (whereConditions (isNullClause b key)).
Proof.
  intros Hk Hb. apply closed_snoc; [exact Hb|].
  unfold closed. cbn [delimited]. now rewrite Hk.
Qed.

Lemma inClause_closed b key elems :
  dollar_free key = true -> Forall closed (whereConditions b) ->
  Forall closed (whereConditions (inClause b key elems)).
Proof.
  intros Hk Hb. unfold inClause. rewrite takePlaceholders_spec.
  apply closed_snoc; [exact Hb|].
  unfold closed. rewrite !delimited_app. cbn [delimited]. rewrite Hk.
  rewrite delimited_join; [reflexivity | apply comma_separates | apply closed_params
                          | reflexivity].
Qed.

Lemma equalsClause_closed b key v :
  dollar_free key = true -> Forall closed (whereConditions b) ->
  Forall closed (whereConditions (equalsClause b key v)).
Proof.
  intros Hk Hb. apply closed_snoc; [exact Hb|].
  unfold closed. cbn [delimited]. now rewrite Hk.
Qed.

Lemma operatorClause_closed b key op v :
  dollar_free key = true -> dollar_free (toString op) = true ->
  Forall closed (whereConditions b) ->
  Forall closed (whereConditions (operatorClause b key op v)).
Proof.
  intros Hk Ho Hb. apply closed_snoc; [exact Hb|].
  unfold closed. cbn [delimited]. now rewrite Hk, Ho.
Qed.

Lemma findCondition_closed : keeps_closed findCondition findWords.
Proof.
  intros b [key v] Hw Hb. unfold findWords in Hw. cbn [fst snd forallb] in Hw.
  apply andb_true_iff in Hw as [Hk Hw]. unfold findCondition.
  destruct v; try (now apply equalsClause_closed).
  - now apply isNullClause_closed.
  - now apply inClause_closed.
  - destruct (truthy (get props "operator")).
    + cbn [forallb] in Hw. apply andb_true_iff in Hw as [Ho _].
      now apply operatorClause_closed.
    + now apply equalsClause_closed.
Qed.

Lemma mutateCondition_closed : keeps_closed mutateCondition mutateWords.
Proof.
  intros b [key v] Hw Hb. cbn [mutateWords fst forallb] in Hw.
  apply andb_true_iff in Hw as [Hk _]. unfold mutateCondition.
  destruct v; try (now apply equalsClause_closed).
  - now apply isNullClause_closed.
  - now apply inClause_closed.
Qed.

Lemma setField_closed : keeps_closed setField mutateWords.
Proof.
  intros b [key v] Hw Hb. cbn [mutateWords fst forallb] in Hw.
  apply andb_true_iff in Hw as [Hk _].
  exact (equalsClause_closed b key v Hk Hb).
Qed.

Lemma fold_closed step words (es : list (string * value)) (b : builder) :
  keeps_closed step words ->
  forallb dollar_free (flat_map words es) = true ->
  Forall closed (whereConditions b) ->
  Forall closed (whereConditions (fold_left step es b)).
Proof.
  intros Hstep. revert b. induction es as [|e es IH]; intros b Hw Hb; simpl.
  - exact Hb.
  - simpl in Hw. rewrite forallb_app in Hw. apply andb_true_iff in Hw as [He Hes].
    apply IH; [exact Hes|]. now apply Hstep.
Qed.

(** *** Delimitation of the four statements *)

Lemma string_app_nil_r (s : string) : (s ++ "")%string = s.
Proof. induction s; simpl; congruence. Qed.

Lemma scan_closed (t : text) : closed t -> scan (render t) = placeholders t.
Proof.
  intros H. rewrite <- (string_app_nil_r (render t)), scan_render by exact H.
  cbn [scan]. now rewrite app_nil_r.
Qed.

Lemma closed_extend (q t : text) :
  closed q -> closed t -> starts_nondigit (render t) = true -> closed (q ++ t).
Proof.
  unfold closed. intros Hq Ht Hs. rewrite delimited_app, Ht, andb_true_r.
  apply delimited_weaken with (x := EmptyString); [exact Hq|].
  now rewrite string_app_nil_r.
Qed.

Ltac split_words H :=
  repeat match type of H with
         | forallb _ (_ :: _) = true => cbn [forallb] in H
         | (_ && _) = true =>
             let Hw := fresh "Hw" in
             apply andb_true_iff in H as [Hw H]
         | forallb _ (_ ++ _) = true =>
             let Hw := fresh "Hw" in
             rewrite forallb_app in H; apply andb_true_iff in H as [Hw H]
         end.

Lemma insertStatement_closed table data returnFields :
  forallb dollar_free (insertWords table data returnFields) = true ->
  closed (fst (insertStatement table data returnFields)).
Proof.
  unfold insertWords. intros H. split_words H.
  unfold closed, insertStatement, mapi. cbn [fst].
  rewrite !delimited_app. cbn [delimited]. rewrite Hw, Hw0.
  rewrite !delimited_join;
    [reflexivity | apply comma_separates | apply closed_map_from | reflexivity
     | apply comma_separates | now apply closed_literals | reflexivity].
Qed.

Lemma updateStatement_closed table data conditions returnFields :
  forallb dollar_free (updateWords table data conditions returnFields) = true ->
  closed (fst (updateStatement table data conditions returnFields)).
Proof.
  unfold updateWords. intros H. split_words H.
  unfold closed, updateStatement, entries. cbn [fst].
  rewrite !delimited_app. cbn [delimited]. rewrite Hw, Hw0.
  rewrite !delimited_join;
    [reflexivity | apply and_separates | | reflexivity
     | apply comma_separates | | reflexivity].
  - apply fold_closed with (words := mutateWords);
      [apply mutateCondition_closed | exact H | constructor].
  - apply fold_closed with (words := mutateWords);
      [apply setField_closed | exact Hw1 | constructor].
Qed.

Lemma deleteStatement_closed table conditions returnFields :
  forallb dollar_free (deleteWords table conditions returnFields) = true ->
  closed (fst (deleteStatement table conditions returnFields)).
Proof.
  unfold deleteWords. intros H. split_words H.
  unfold closed, deleteStatement, entries. cbn [fst].
  rewrite !delimited_app. cbn [delimited]. rewrite Hw, Hw0.
  rewrite !delimited_join; [reflexivity | apply and_separates | | reflexivity].
  apply fold_closed with (words := mutateWords);
    [apply mutateCondition_closed | exact H | constructor].
Qed.

Lemma addWhere_closed table conditions opts :
  forallb dollar_free (findWordsAll table conditions opts) = true ->
  closed (query (addWhere table conditions opts)).
Proof.
  unfold findWordsAll. intros H. split_words H.
  unfold closed, addWhere, keys, entries. rewrite length_map.
  destruct conditions as [|e rest].
  - cbn [length Nat.ltb Nat.leb query delimited]. now rewrite Hw, Hw0.
  - cbn [length Nat.ltb Nat.leb query].
    rewrite !delimited_app. cbn [delimited]. rewrite Hw, Hw0.
    rewrite delimited_join;
      [reflexivity | now apply operator_separates | | reflexivity].
    apply fold_closed with (words := findWords);
      [apply findCondition_closed | exact H | constructor].
Qed.

Lemma findStatement_closed table conditions opts :
  forallb dollar_free (findWordsAll table conditions opts) = true ->
  closed (fst (findStatement table conditions opts)).
Proof.
  intros H. pose proof (addWhere_closed _ _ _ H) as Hq.
  unfold findWordsAll in H. split_words H.
  unfold findStatement, findDraft. cbn [fst].
  set (d0 := addWhere table conditions opts) in *.
  assert (Ho : closed (query (addOrderBy opts d0))).
  { unfold addOrderBy. destruct (orderBy opts) as [o|]; [|exact Hq].
    destruct (negb (String.eqb o "")); [|exact Hq]. cbn [query orElse] in *.
    apply closed_extend; [exact Hq | | reflexivity].
    unfold closed. cbn [delimited]. now rewrite Hw2. }
  set (d1 := addOrderBy opts d0) in *.
  assert (Hl : closed (query (addLimit opts d1))).
  { unfold addLimit. destruct (truthy (orNull (limit opts))); [|exact Ho].
    cbn [query]. apply closed_extend; [exact Ho | reflexivity | reflexivity]. }
  set (d2 := addLimit opts d1) in *.
  unfold addOffset. destruct (truthy (orNull (offset opts))); [|exact Hl].
  cbn [query]. apply closed_extend; [exact Hl | reflexivity | reflexivity].
Qed.

(** ** What one condition entry contributes *)

Lemma findCondition_eq (b : builder) (entry : string * value) :
  findCondition b entry
  = {| paramCount := paramCount b + length (findValues entry);
       values := values b ++ findValues entry;
       whereConditions := whereConditions b ++ [findClause (paramCount b) entry] |}.
Proof.
  destruct entry as [key v]. unfold findCondition, findValues, findClause. cbn [snd].
  assert (Hone : forall w,
             equalsClause b key w
             = {| paramCount := paramCount b + 1; values := values b ++ [w];
                  whereConditions := whereConditions b ++ [[Lit key; Lit " = "; Param (paramCount b)]] |}).
  { intros w. unfold equalsClause. now rewrite Nat.add_1_r. }
  destruct v; try apply Hone.
  - unfold isNullClause. now rewrite Nat.add_0_r, app_nil_r.
  - unfold inClause. now rewrite takePlaceholders_spec.
  - destruct (truthy (get props "operator")); [|apply Hone].
    unfold operatorClause. now rewrite Nat.add_1_r.
Qed.

Lemma fold_findCondition (es : list (string * value)) (b : builder) :
  fold_left findCondition es b
  = {| paramCount := paramCount b + length (flat_map findValues es);
       values := values b ++ flat_map findValues es;
       whereConditions := whereConditions b ++ findClauses (paramCount b) es |}.
Proof.
  revert b. induction es as [|e es IH]; intros b; cbn [fold_left flat_map findClauses].
  - destruct b. cbn. now rewrite Nat.add_0_r, !app_nil_r.
  - rewrite IH, findCondition_eq. cbn [paramCount values whereConditions].
    rewrite length_app, <- !app_assoc, Nat.add_assoc. reflexivity.
Qed.

Lemma findClauses_nth (p : nat) (before after : list (string * value)) (e : string * value) :
  nth_error (findClauses p (before ++ e :: after)) (length before)
  = Some (findClause (p + length (flat_map findValues before)) e).
Proof.
  revert p. induction before as [|x before IH]; intros p; cbn.
  - now rewrite Nat.add_0_r.
  - rewrite IH, length_app, Nat.add_assoc. reflexivity.
Qed.

(** The statement [getFromDB] builds, clause by clause. *)
Lemma addWhere_eq table conditions opts :
  conditions <> [] ->
  addWhere table conditions opts
  = {| query := [Lit "SELECT "; Lit (orElse (columns opts) "*"); Lit " FROM "; Lit table]
                  ++ [Lit " WHERE "]
                  ++ join [Lit " "; Lit (orElse (operator opts) "AND"); Lit " "]
                       (findClauses 1 conditions);
       dvalues := flat_map findValues conditions;
       dcount := 1 + length (flat_map findValues conditions) |}.
Proof.
  intros Hne. unfold addWhere, keys, entries. rewrite length_map.
  destruct conditions as [|e rest]; [congruence|].
  cbn [length Nat.ltb Nat.leb]. rewrite fold_findCondition.
  cbn [paramCount values whereConditions app]. reflexivity.
Qed.

(** The trailing parameters: what LIMIT and OFFSET add to a draft. *)
Lemma limit_offset_values opts d :
  dvalues (addOffset opts (addLimit opts d))
  = dvalues d
      ++ (if truthy (orNull (limit opts)) then [orNull (limit opts)] else [])
      ++ (if truthy (orNull (offset opts)) then [orNull (offset opts)] else []).
Proof.
  unfold addOffset, addLimit.
  destruct (truthy (orNull (limit opts))), (truthy (orNull (offset opts)));
    cbn [dvalues]; rewrite <- ?app_assoc, ?app_nil_r; reflexivity.
Qed.

Lemma addOrderBy_values opts d : dvalues (addOrderBy opts d) = dvalues d.
Proof.
  unfold addOrderBy. destruct (orderBy opts) as [o|]; [|reflexivity].
  destruct (negb (String.eqb o "")); reflexivity.
Qed.

Lemma findStatement_values table conditions opts :
  snd (findStatement table conditions opts)
  = flat_map findValues conditions
      ++ (if truthy (orNull (limit opts)) then [orNull (limit opts)] else [])
      ++ (if truthy (orNull (offset opts)) then [orNull (offset opts)] else []).
Proof.
  unfold findStatement, findDraft. cbn [snd].
  now rewrite limit_offset_values, addOrderBy_values, addWhere_values.
Qed.

(** ** Running the operations *)

Lemma handleError_throws {A : Type} (operation : string) (error : JsError)
  (db : Store) (log : list event) :
  @handleError A operation error db log = (Thrown (mapError error), log).
Proof.
  unfold handleError, mapError, signal_of.
  destruct (code error) as [c|]; [|reflexivity].
  destruct (String.eqb c "23505"); [reflexivity|].
  destruct (String.eqb c "23503"); [reflexivity|].
  destruct (String.eqb c "23502"); [reflexivity|].
  destruct (String.eqb c "42P01"); reflexivity.
Qed.

Lemma wrapped_kind (msg : string) :
  error_kind (Error ("Database operation failed: " ++ msg)) = Some OperationFailedError.
Proof. destruct msg; reflexivity. Qed.

Lemma mapError_kind (error : JsError) :
  error_kind (mapError error) = Some (mapped_kind (signal_of error)).
Proof.
  unfold mapError. destruct (signal_of error); try reflexivity. apply wrapped_kind.
Qed.

Section Running.

Variable db : Store.
Variable log : list event.
Hypothesis connect_ok : connect db = None.

Ltac run :=
  unfold bind, pool_connect, tryCatchFinally, tryCatch, client_query, client_release,
    throw, ret;
  rewrite ?connect_ok.

Lemma addToDB_run table data returnFields :
  addToDB table data returnFields db log
  = let '(q, vs) := insertStatement table data (orElse returnFields "*") in
    (settle match execute db (render q) vs with
            | Returned [] => Thrown (Error "Insert operation failed - no record returned")
            | Returned (first :: _) => Returned first
            | Thrown e => Thrown e
            end,
     ((log ++ [Connected]) ++ [Queried (render q) vs]) ++ [Released]).
Proof.
  unfold addToDB. destruct (insertStatement _ _ _) as [q vs]. run.
  destruct (execute db (render q) vs) as [[|first rows]|e];
    rewrite ?handleError_throws; reflexivity.
Qed.

Lemma getFromDB_run table conditions opts :
  getFromDB table conditions opts db log
  = let '(q, vs) := findStatement table conditions opts in
    (settle (execute db (render q) vs),
     ((log ++ [Connected]) ++ [Queried (render q) vs]) ++ [Released]).
Proof.
  unfold getFromDB. destruct (findStatement _ _ _) as [q vs]. run.
  destruct (execute db (render q) vs) as [rows|e];
    rewrite ?handleError_throws; reflexivity.
Qed.

Lemma updateInDB_unscoped table data returnFields :
  updateInDB table data [] returnFields db log
  = (Thrown (Error ("Database operation failed: "
                      ++ "Update conditions are required to prevent updating all records")),
     (log ++ [Connected]) ++ [Released]).
Proof. unfold updateInDB. run. reflexivity. Qed.

Lemma updateInDB_no_data table conditions returnFields :
  conditions <> [] ->
  updateInDB table [] conditions returnFields db log
  = (Thrown (Error ("Database operation failed: " ++ "No data provided for update")),
     (log ++ [Connected]) ++ [Released]).
Proof.
  intros Hc. unfold updateInDB. run.
  destruct conditions; [congruence | reflexivity].
Qed.

Lemma updateInDB_run table data conditions returnFields :
  conditions <> [] -> data <> [] ->
  updateInDB table data conditions returnFields db log
  = let '(q, vs) := updateStatement table data conditions (orElse returnFields "*") in
    (settle match execute db (render q) vs with
            | Returned [] => Thrown (Error "No records found matching the update conditions")
            | Returned rows => Returned rows
            | Thrown e => Thrown e
            end,
     ((log ++ [Connected]) ++ [Queried (render q) vs]) ++ [Released]).
Proof.
  intros Hc Hd. unfold updateInDB.
  destruct (updateStatement _ _ _ _) as [q vs]. run.
  destruct conditions as [|c cs]; [congruence|].
  destruct data as [|d ds]; [congruence|]. cbn [keys map length Nat.eqb].
  destruct (execute db (render q) vs) as [[|first rows]|e];
    rewrite ?handleError_throws; reflexivity.
Qed.

Lemma deleteFromDB_unscoped table returnFields :
  deleteFromDB table [] returnFields db log
  = (Thrown (Error ("Database operation failed: "
                      ++ "Delete conditions are required to prevent deleting all records")),
     (log ++ [Connected]) ++ [Released]).
Proof. unfold deleteFromDB. run. reflexivity. Qed.

Lemma deleteFromDB_run table conditions returnFields :
  conditions <> [] ->
  deleteFromDB table conditions returnFields db log
  = let '(q, vs) := deleteStatement table conditions (orElse returnFields "*") in
    (settle (execute db (render q) vs),
     ((log ++ [Connected]) ++ [Queried (render q) vs]) ++ [Released]).
Proof.
  intros Hc. unfold deleteFromDB.
  destruct (deleteStatement _ _ _) as [q vs]. run.
  destruct conditions as [|c cs]; [congruence|]. cbn [keys map length Nat.eqb].
  destruct (execute db (render q) vs) as [rows|e];
    rewrite ?handleError_throws; reflexivity.
Qed.

End Running.

(** When the pool hands out no client, nothing else happens. *)
Lemma updateInDB_no_client table data conditions returnFields db log e :
  connect db = Some e ->
  updateInDB table data conditions returnFields db log = (Thrown e, log).
Proof. intros H. unfold updateInDB, bind, pool_connect. now rewrite H. Qed.

Lemma deleteFromDB_no_client table conditions returnFields db log e :
  connect db = Some e ->
  deleteFromDB table conditions returnFields db log = (Thrown e, log).
Proof. intros H. unfold deleteFromDB, bind, pool_connect. now rewrite H. Qed.

(** * The claims *)

(** ** Parameter numbering *)

Lemma seq_sorted (start len : nat) : StronglySorted lt (seq start len).
Proof.
  revert start. induction len as [|len IH]; intros start; simpl; constructor.
  - apply IH.
  - apply Forall_forall. intros x Hx. apply in_seq in Hx. lia.
Qed.

Lemma seq_nth_error (start len i : nat) :
  i < len -> nth_error (seq start len) i = Some (start + i).
Proof.
  revert start i. induction len as [|len IH]; intros start i Hi; [lia|].
  destruct i as [|i]; simpl.
  - f_equal. lia.
  - rewrite IH by lia. f_equal. lia.
Qed.

Lemma numbered_numbering (stmt : text * list value) : numbered stmt -> numbering stmt.
Proof.
  unfold numbered. intros H. constructor; rewrite H.
  - now rewrite length_seq.
  - apply seq_sorted.
  - apply seq_NoDup.
  - apply length_seq.
  - intros i v Hv. apply seq_nth_error.
    apply nth_error_Some. congruence.
Qed.

Lemma closed_text_numbered (stmt : text * list value) :
  closed (fst stmt) -> numbered stmt -> text_numbered stmt.
Proof. unfold text_numbered. intros Hc Hn. now rewrite scan_closed. Qed.

(** C1. In every statement built by insert, find, update or delete, one
    counter numbers the placeholders of all clauses (SET, WHERE, LIMIT,
    OFFSET): they are [$1, $2, ...] in order of appearance, strictly
    increasing and never reused, there are as many as positional values,
    and the Nth placeholder is the one numbered N, which the driver binds
    to the Nth value. Read back from the rendered text, the placeholders
    are the same whenever the caller's identifiers hold no [$]. *)
Theorem placeholders_number_the_values
  (table : string) (data conditions : object) (opts : options) (returnFields : string) :
  (numbering (insertStatement table data returnFields)
   /\ numbering (findStatement table conditions opts)
   /\ numbering (updateStatement table data conditions returnFields)
   /\ numbering (deleteStatement table conditions returnFields))
  /\ (forallb dollar_free (insertWords table data returnFields) = true ->
      text_numbered (insertStatement table data returnFields))
  /\ (forallb dollar_free (findWordsAll table conditions opts) = true ->
      text_numbered (findStatement table conditions opts))
  /\ (forallb dollar_free (updateWords table data conditions returnFields) = true ->
      text_numbered (updateStatement table data conditions returnFields))
  /\ (forallb dollar_free (deleteWords table conditions returnFields) = true ->
      text_numbered (deleteStatement table conditions returnFields)).
Proof.
  split; [|split; [|split; [|split]]].
  - split; [|split; [|split]]; apply numbered_numbering.
    + apply insertStatement_numbered.
    + apply findStatement_numbered.
    + apply updateStatement_numbered.
    + apply deleteStatement_numbered.
  - intros H. apply closed_text_numbered;
      [now apply insertStatement_closed | apply insertStatement_numbered].
  - intros H. apply closed_text_numbered;
      [now apply findStatement_closed | apply findStatement_numbered].
  - intros H. apply closed_text_numbered;
      [now apply updateStatement_closed | apply updateStatement_numbered].
  - intros H. apply closed_text_numbered;
      [now apply deleteStatement_closed | apply deleteStatement_numbered].
Qed.

Lemma placeholders_number_the_values_witness :
  text_numbered (insertStatement "designs" sampleData "*")
  /\ text_numbered (findStatement "designs" sampleConditions sampleOptions)
  /\ text_numbered (updateStatement "designs" sampleData sampleConditions "*")
  /\ text_numbered (deleteStatement "designs" sampleConditions "*").
Proof.
  destruct (placeholders_number_the_values
              "designs" sampleData sampleConditions sampleOptions "*")
    as (_ & Hi & Hf & Hu & Hd).
  exact (conj (Hi eq_refl) (conj (Hf eq_refl) (conj (Hu eq_refl) (Hd eq_refl)))).
Defined.

Example update_text :
  render (fst (updateStatement "designs" sampleData sampleConditions "*"))
  = (LF ++ "      UPDATE designs"
     ++ LF ++ "      SET approved = $1, final_dress = $2"
     ++ LF ++ "      WHERE design_id = $3 AND fabric IN ($4, $5) AND comments IS NULL"
     ++ LF ++ "      RETURNING *;" ++ LF ++ "    ")%string
  /\ snd (updateStatement "designs" sampleData sampleConditions "*")
     = [VStr "Yes"; VStr "Completed"; VStr "D001"; VStr "Cotton"; VStr "Silk"].
Proof. split; reflexivity. Qed.

(** ** Insert *)

Lemma map_from_params {A : Type} (l : list A) (index : nat) :
  map_from (fun _ i => [Param (i + 1)]) index l
  = map (fun i => [Param i]) (seq (S index) (length l)).
Proof.
  revert index. induction l as [|x l IH]; intros index; simpl.
  - reflexivity.
  - rewrite IH, Nat.add_1_r. reflexivity.
Qed.

(** C4, as the specification states it, fails: an insert with an empty
    field mapping is not refused as invalid. The statement is built and
    sent to the store with no parameter, and the caller sees what the
    store's answer maps to, here the generic wrapped failure of a
    statement the store rejects as malformed. *)
Lemma empty_insert_reaches_the_store :
  addToDB "designs" [] None strictStore []
  = (Thrown (Error "Database operation failed: syntax error"),
     [Connected; Queried (render (fst (insertStatement "designs" [] "*"))) []; Released])
  /\ ~ (exists e, fst (addToDB "designs" [] None strictStore []) = Thrown e
                  /\ error_kind e = Some ValidationError).
Proof.
  split; [reflexivity|].
  intros (e & He & Hk). vm_compute in He. injection He as <-. discriminate Hk.
Qed.

(** C4, amended. For every non-empty field mapping, insert produces
    exactly as many positional parameters as fields, in mapping-iteration
    order: the values are the mapping's values, the column list names the
    keys in the same order, the placeholders are [$1 .. $n], and the Nth
    placeholder binds the Nth listed field's value. This statement and
    these values are what the store receives. *)
Theorem insert_binds_fields_in_order
  (table : string) (data : object) (returnFields : string) :
  data <> [] ->
  let stmt := insertStatement table data returnFields in
  snd stmt = vals data
  /\ length (snd stmt) = length (keys data)
  /\ fst stmt
     = [Lit (LF ++ "      INSERT INTO "); Lit table; Lit " ("]
         ++ join [Lit ", "] (map (fun c => [Lit c]) (keys data))
         ++ [Lit (")" ++ LF ++ "      VALUES (")]
         ++ join [Lit ", "] (map (fun i => [Param i]) (seq 1 (length (keys data))))
         ++ [Lit (")" ++ LF ++ "      RETURNING "); Lit returnFields;
             Lit (";" ++ LF ++ "    ")]
  /\ (forall i key v,
         nth_error (entries data) i = Some (key, v) ->
         nth_error (keys data) i = Some key
         /\ nth_error (placeholders (fst stmt)) i = Some (S i)
         /\ nth_error (snd stmt) i = Some v)
  /\ (forall db log,
         connect db = None ->
         snd (addToDB table data (Some returnFields) db log)
         = ((log ++ [Connected]) ++ [Queried (render (fst stmt)) (vals data)])
             ++ [Released]).
Proof.
  intros _ stmt. subst stmt.
  split; [reflexivity|]. split; [unfold insertStatement, keys, vals; cbn [snd];
                                 now rewrite !length_map|].
  split; [unfold insertStatement, mapi; cbn [fst]; now rewrite map_from_params|].
  split.
  - intros i key v Hi. unfold entries in Hi.
    assert (Hv : nth_error (vals data) i = Some v).
    { unfold vals. now rewrite nth_error_map, Hi. }
    split; [unfold keys; now rewrite nth_error_map, Hi|].
    split; [|exact Hv].
    pose proof (numbered_numbering _ (insertStatement_numbered table data returnFields)) as N.
    exact (nth_for_nth _ N i v Hv).
  - intros db log Hc. rewrite addToDB_run by exact Hc. reflexivity.
Qed.

Lemma insert_binds_fields_in_order_witness :
  snd (insertStatement "designs" sampleData "*") = [VStr "Yes"; VStr "Completed"]
  /\ placeholders (fst (insertStatement "designs" sampleData "*")) = [1; 2].
Proof.
  assert (Hne : sampleData <> []) by discriminate.
  destruct (insert_binds_fields_in_order "designs" sampleData "*" Hne)
    as (Hv & _ & _ & Hnth & _).
  split; [exact Hv | reflexivity].
Defined.

(** ** The guards of update and delete *)

(** C2, as the specification states it, fails: the error that reaches
    the caller of an update with no condition is not of the kind
    UnscopedMutationError. The guard's error is caught inside
    [updateInDB] and thrown again by the default branch of
    [handleError]. *)
Lemma unscoped_update_is_wrapped :
  fst (updateInDB "designs" sampleData [] None echoStore [])
  = Thrown (Error "Database operation failed: Update conditions are required to prevent updating all records")
  /\ ~ (exists e, fst (updateInDB "designs" sampleData [] None echoStore []) = Thrown e
                  /\ error_kind e = Some UnscopedMutationError).
Proof.
  split; [reflexivity|].
  intros (e & He & Hk). vm_compute in He. injection He as <-. discriminate Hk.
Qed.

(** C2, amended. For every table and every field mapping, update with
    an empty condition set executes no statement, whatever the field
    mapping holds, and so does delete with an empty condition set; once
    the pool has handed out a client both fail, the caller observing the
    guard's message wrapped by the default branch of the error mapping
    (["Database operation failed: "] followed by the guard's message, of
    kind OperationFailedError), and the client is released. *)
Theorem unscoped_mutation_is_refused
  (db : Store) (log : list event) (table : string) (data : object)
  (returnFields : option string) :
  (exists events,
      snd (updateInDB table data [] returnFields db log) = log ++ events
      /\ no_query events)
  /\ (exists events,
         snd (deleteFromDB table [] returnFields db log) = log ++ events
         /\ no_query events)
  /\ (connect db = None ->
      updateInDB table data [] returnFields db log
      = (Thrown (mapError
                   (Error "Update conditions are required to prevent updating all records")),
         log ++ [Connected; Released])
      /\ deleteFromDB table [] returnFields db log
         = (Thrown (mapError
                      (Error "Delete conditions are required to prevent deleting all records")),
            log ++ [Connected; Released])
      /\ mapError (Error "Update conditions are required to prevent updating all records")
         = Error "Database operation failed: Update conditions are required to prevent updating all records"
      /\ mapError (Error "Delete conditions are required to prevent deleting all records")
         = Error "Database operation failed: Delete conditions are required to prevent deleting all records"
      /\ error_kind
           (mapError (Error "Update conditions are required to prevent updating all records"))
         = Some OperationFailedError
      /\ error_kind
           (mapError (Error "Delete conditions are required to prevent deleting all records"))
         = Some OperationFailedError).
Proof.
  assert (Hquiet : no_query [Connected; Released]).
  { intros sql params [H|[H|[]]]; discriminate H. }
  assert (Hnone : no_query []) by (intros sql params []).
  split; [|split].
  - destruct (connect db) as [e|] eqn:Hc.
    + exists []. rewrite (updateInDB_no_client _ _ _ _ _ _ _ Hc), app_nil_r. auto.
    + exists [Connected; Released]. rewrite updateInDB_unscoped by exact Hc.
      cbn [snd]. rewrite <- app_assoc. auto.
  - destruct (connect db) as [e|] eqn:Hc.
    + exists []. rewrite (deleteFromDB_no_client _ _ _ _ _ _ Hc), app_nil_r. auto.
    + exists [Connected; Released]. rewrite deleteFromDB_unscoped by exact Hc.
      cbn [snd]. rewrite <- app_assoc. auto.
  - intros Hc. rewrite updateInDB_unscoped, deleteFromDB_unscoped by exact Hc.
    rewrite <- !app_assoc. repeat split.
Qed.

Lemma unscoped_mutation_is_refused_witness :
  updateInDB "designs" sampleData [] None echoStore []
  = (Thrown (Error "Database operation failed: Update conditions are required to prevent updating all records"),
     [Connected; Released]).
Proof.
  destruct (unscoped_mutation_is_refused echoStore [] "designs" sampleData None)
    as (_ & _ & H).
  destruct (H eq_refl) as (Hu & _). exact Hu.
Defined.

(** ** Zero rows *)

(** C3, as the specification states it, fails in its first half: when no
    row matches, the error that reaches the caller of update is not of
    the kind NoMatchError but the wrapped generic one. *)
Lemma unmatched_update_is_wrapped :
  fst (updateInDB "designs" sampleData sampleConditions None emptyStore [])
  = Thrown (Error "Database operation failed: No records found matching the update conditions")
  /\ ~ (exists e,
           fst (updateInDB "designs" sampleData sampleConditions None emptyStore [])
           = Thrown e
           /\ error_kind e = Some NoMatchError).
Proof.
  split; [reflexivity|].
  intros (e & He & Hk). vm_compute in He. injection He as <-. discriminate Hk.
Qed.

(** C3, amended. For every non-empty condition set (and non-empty field
    mapping) under which the store reports zero rows, update fails, the
    caller observing the message ["No records found matching the update
    conditions"] wrapped by the default branch of the error mapping (kind
    OperationFailedError), while delete under the same condition set
    returns the empty sequence without failing. *)
Theorem zero_rows_update_fails_delete_returns
  (db : Store) (log : list event) (table : string) (data conditions : object)
  (returnFields : option string) :
  connect db = None ->
  conditions <> [] ->
  data <> [] ->
  (let '(q, vs) := updateStatement table data conditions (orElse returnFields "*") in
   execute db (render q) vs = Returned []) ->
  (let '(q, vs) := deleteStatement table conditions (orElse returnFields "*") in
   execute db (render q) vs = Returned []) ->
  fst (updateInDB table data conditions returnFields db log)
  = Thrown (Error "Database operation failed: No records found matching the update conditions")
  /\ error_kind
       (Error "Database operation failed: No records found matching the update conditions")
     = Some OperationFailedError
  /\ fst (deleteFromDB table conditions returnFields db log) = Returned [].
Proof.
  intros Hc Hcond Hdata Hu Hd.
  rewrite updateInDB_run, deleteFromDB_run by assumption.
  destruct (updateStatement _ _ _ _) as [uq uvs].
  destruct (deleteStatement _ _ _) as [dq dvs].
  cbn [fst]. rewrite Hu, Hd. repeat split.
Qed.

Lemma zero_rows_update_fails_delete_returns_witness :
  fst (updateInDB "designs" sampleData sampleConditions None emptyStore [])
  = Thrown (Error "Database operation failed: No records found matching the update conditions")
  /\ fst (deleteFromDB "designs" sampleConditions None emptyStore []) = Returned [].
Proof.
  assert (Hc : sampleConditions <> []) by discriminate.
  assert (Hd : sampleData <> []) by discriminate.
  destruct (zero_rows_update_fails_delete_returns
              emptyStore [] "designs" sampleData sampleConditions None
              eq_refl Hc Hd eq_refl eq_refl) as (Hu & _ & Hdel).
  exact (conj Hu Hdel).
Defined.

(** ** The error mapping *)

(** C5. [handleError] raises for every error it is given and never
    returns a value; it maps a unique-constraint violation (23505) to
    DuplicateRecordError, a foreign-key violation (23503) to
    DanglingReferenceError, a not-null violation (23502) to
    MissingFieldError, relation-not-found (42P01) to UnknownTableError and
    any other error to OperationFailedError wrapping the original
    message. Every operation sends the errors of its statement through
    it. *)
Theorem handleError_maps_and_raises
  (A : Type) (operation : string) (error : JsError) (db : Store) (log : list event) :
  (exists raised,
      @handleError A operation error db log = (Thrown raised, log)
      /\ error_kind raised = Some (mapped_kind (signal_of error))
      /\ (code error = Some "23505" -> error_kind raised = Some DuplicateRecordError)
      /\ (code error = Some "23503" -> error_kind raised = Some DanglingReferenceError)
      /\ (code error = Some "23502" -> error_kind raised = Some MissingFieldError)
      /\ (code error = Some "42P01" -> error_kind raised = Some UnknownTableError)
      /\ (signal_of error = OtherSignal ->
          raised = Error ("Database operation failed: " ++ message error)
          /\ error_kind raised = Some OperationFailedError))
  /\ (connect db = None ->
      forall table data conditions opts returnFields,
        (execute db (render (fst (insertStatement table data (orElse returnFields "*"))))
           (snd (insertStatement table data (orElse returnFields "*"))) = Thrown error ->
         fst (addToDB table data returnFields db log) = Thrown (mapError error))
        /\ (execute db (render (fst (findStatement table conditions opts)))
              (snd (findStatement table conditions opts)) = Thrown error ->
            fst (getFromDB table conditions opts db log) = Thrown (mapError error))
        /\ (conditions <> [] -> data <> [] ->
            execute db
              (render (fst (updateStatement table data conditions (orElse returnFields "*"))))
              (snd (updateStatement table data conditions (orElse returnFields "*")))
            = Thrown error ->
            fst (updateInDB table data conditions returnFields db log)
            = Thrown (mapError error))
        /\ (conditions <> [] ->
            execute db
              (render (fst (deleteStatement table conditions (orElse returnFields "*"))))
              (snd (deleteStatement table conditions (orElse returnFields "*")))
            = Thrown error ->
            fst (deleteFromDB table conditions returnFields db log)
            = Thrown (mapError error))).
Proof.
  split.
  - exists (mapError error). rewrite handleError_throws.
    split; [reflexivity|]. split; [apply mapError_kind|].
    split; [|split; [|split; [|split]]].
    + intros H. unfold mapError, signal_of. now rewrite H.
    + intros H. unfold mapError, signal_of. now rewrite H.
    + intros H. unfold mapError, signal_of. now rewrite H.
    + intros H. unfold mapError, signal_of. now rewrite H.
    + intros H. unfold mapError. rewrite H. split; [reflexivity | apply wrapped_kind].
  - intros Hc table data conditions opts returnFields.
    split; [|split; [|split]].
    + intros H. rewrite addToDB_run by exact Hc.
      destruct (insertStatement _ _ _) as [q vs]. cbn [fst snd] in *. now rewrite H.
    + intros H. rewrite getFromDB_run by exact Hc.
      destruct (findStatement _ _ _) as [q vs]. cbn [fst snd] in *. now rewrite H.
    + intros Hn Hd H. rewrite updateInDB_run by assumption.
      destruct (updateStatement _ _ _ _) as [q vs]. cbn [fst snd] in *. now rewrite H.
    + intros Hn H. rewrite deleteFromDB_run by assumption.
      destruct (deleteStatement _ _ _) as [q vs]. cbn [fst snd] in *. now rewrite H.
Qed.

Lemma handleError_maps_and_raises_witness :
  fst (addToDB "designs" sampleData None takenStore [])
  = Thrown (Error "Record with this identifier already exists").
Proof.
  destruct (handleError_maps_and_raises row "addToDB" duplicateKey takenStore [])
    as (_ & H).
  destruct (H eq_refl "designs" sampleData sampleConditions sampleOptions None)
    as (Hi & _).
  exact (Hi eq_refl).
Defined.

Example handleError_table :
  map (fun c => fst (@handleError unit "getFromDB" {| code := c; message := "boom" |}
                       echoStore []))
    [Some "23505"; Some "23503"; Some "23502"; Some "42P01"; Some "42601"; None]
  = [Thrown (Error "Record with this identifier already exists");
     Thrown (Error "Referenced record does not exist");
     Thrown (Error "Required field is missing");
     Thrown (Error "Table does not exist");
     Thrown (Error "Database operation failed: boom");
     Thrown (Error "Database operation failed: boom")].
Proof. reflexivity. Qed.

(** ** Local errors at the caller *)

(** C6. Every error insert, update and delete raise themselves (the
    empty-condition guards, the empty-update-data guard, the zero-row
    update, the zero-row insert) is caught and thrown again by the default
    branch of [handleError]: the caller observes
    ["Database operation failed: "] followed by the local message, always
    of the generic wrapped kind, so the kinds of the local errors cannot
    be told apart by kind at the caller. *)
Theorem local_errors_are_wrapped
  (db : Store) (log : list event) (table : string) (data conditions : object)
  (returnFields : option string) :
  connect db = None ->
  let wrapped msg := Error ("Database operation failed: " ++ msg) in
  fst (updateInDB table data [] returnFields db log)
  = Thrown (wrapped "Update conditions are required to prevent updating all records")
  /\ fst (deleteFromDB table [] returnFields db log)
     = Thrown (wrapped "Delete conditions are required to prevent deleting all records")
  /\ (conditions <> [] ->
      fst (updateInDB table [] conditions returnFields db log)
      = Thrown (wrapped "No data provided for update"))
  /\ (conditions <> [] -> data <> [] ->
      execute db
        (render (fst (updateStatement table data conditions (orElse returnFields "*"))))
        (snd (updateStatement table data conditions (orElse returnFields "*")))
      = Returned [] ->
      fst (updateInDB table data conditions returnFields db log)
      = Thrown (wrapped "No records found matching the update conditions"))
  /\ (execute db (render (fst (insertStatement table data (orElse returnFields "*"))))
        (snd (insertStatement table data (orElse returnFields "*"))) = Returned [] ->
      fst (addToDB table data returnFields db log)
      = Thrown (wrapped "Insert operation failed - no record returned"))
  /\ (forall msg, error_kind (wrapped msg) = Some OperationFailedError)
  /\ map error_kind
       [Error "Update conditions are required to prevent updating all records";
        Error "Delete conditions are required to prevent deleting all records";
        Error "No data provided for update";
        Error "No records found matching the update conditions";
        Error "Insert operation failed - no record returned"]
     = [Some UnscopedMutationError; Some UnscopedMutationError; Some ValidationError;
        Some NoMatchError; Some NoRowsReturnedError].
Proof.
  intros Hc wrapped. subst wrapped. cbv beta.
  split; [now rewrite updateInDB_unscoped|].
  split; [now rewrite deleteFromDB_unscoped|].
  split; [intros Hn; now rewrite updateInDB_no_data|].
  split.
  { intros Hn Hd H. rewrite updateInDB_run by assumption.
    destruct (updateStatement _ _ _ _) as [q vs]. cbn [fst snd] in *. now rewrite H. }
  split.
  { intros H. rewrite addToDB_run by assumption.
    destruct (insertStatement _ _ _) as [q vs]. cbn [fst snd] in *. now rewrite H. }
  split; [apply wrapped_kind | reflexivity].
Qed.

Lemma local_errors_are_wrapped_witness :
  fst (addToDB "designs" sampleData None emptyStore [])
  = Thrown (Error "Database operation failed: Insert operation failed - no record returned")
  /\ fst (updateInDB "designs" [] sampleConditions None emptyStore [])
     = Thrown (Error "Database operation failed: No data provided for update").
Proof.
  assert (Hc : sampleConditions <> []) by discriminate.
  destruct (local_errors_are_wrapped emptyStore [] "designs" sampleData sampleConditions
              None eq_refl) as (_ & _ & Hnodata & _ & Hinsert & _).
  exact (conj (Hinsert eq_refl)
           (proj1 (proj2 (proj2
              (local_errors_are_wrapped emptyStore [] "designs" [] sampleConditions
                 None eq_refl))) Hc)).
Defined.

(** ** The public surface *)

(** C7, as the specification states it, fails: [deleteFromDB] and
    [testConnection] are declared in the module but are not among its
    exports. *)
Lemma delete_and_testConnection_are_not_exported :
  ~ In "deleteFromDB" module_exports /\ ~ In "testConnection" module_exports.
Proof.
  split; intros [H|[H|[H|[]]]]; discriminate H.
Qed.

(** C7, amended. The module exports exactly [addToDB], [getFromDB] and
    [updateInDB]. It also declares, without exporting them,
    [deleteFromDB], which returns the rows the store reports for a scoped
    delete, and [testConnection], which never raises: it returns an object
    whose [connected] is [true], or [false] together with the message of
    the failure it caught. *)
Theorem testConnection_never_raises (db : Store) (log : list event) :
  module_exports = ["addToDB"; "getFromDB"; "updateInDB"]
  /\ In "deleteFromDB" module_functions
  /\ In "testConnection" module_functions
  /\ (exists props,
         fst (testConnection db log) = Returned (VObj props)
         /\ (get props "connected" = VBool true
             \/ (get props "connected" = VBool false
                 /\ exists msg, get props "error" = VStr msg)))
  /\ (forall e,
         connect db = Some e ->
         testConnection db log
         = (Returned (VObj [("connected", VBool false); ("error", VStr (message e))]), log))
  /\ (forall table conditions returnFields rows,
         connect db = None ->
         conditions <> [] ->
         execute db
           (render (fst (deleteStatement table conditions (orElse returnFields "*"))))
           (snd (deleteStatement table conditions (orElse returnFields "*")))
         = Returned rows ->
         fst (deleteFromDB table conditions returnFields db log) = Returned rows).
Proof.
  split; [reflexivity|].
  split; [simpl; tauto|].
  split; [simpl; tauto|].
  split; [|split].
  - unfold testConnection, tryCatch, bind, pool_connect, client_query, client_release,
      firstRowField, ret, throw.
    destruct (connect db) as [e|].
    + eexists. split; [reflexivity|]. right. split; [reflexivity|]. eexists. reflexivity.
    + destruct (execute db _ _) as [[|first rows]|e].
      * eexists. split; [reflexivity|]. right. split; [reflexivity|]. eexists. reflexivity.
      * eexists. split; [reflexivity|]. left. reflexivity.
      * eexists. split; [reflexivity|]. right. split; [reflexivity|]. eexists. reflexivity.
  - intros e He. unfold testConnection, tryCatch, bind, pool_connect. now rewrite He.
  - intros table conditions returnFields rows Hc Hn H.
    rewrite deleteFromDB_run by assumption.
    destruct (deleteStatement _ _ _) as [q vs]. cbn [fst snd] in *. now rewrite H.
Qed.

Lemma testConnection_never_raises_witness :
  testConnection saturatedStore []
  = (Returned (VObj [("connected", VBool false);
                     ("error", VStr "timeout exceeded when trying to connect")]), []).
Proof.
  destruct (testConnection_never_raises saturatedStore []) as (_ & _ & _ & _ & H & _).
  exact (H _ eq_refl).
Defined.

Example testConnection_connected :
  fst (testConnection
         {| connect := None;
            execute := fun _ _ =>
              Returned [[("current_time", VStr "2024-01-01"); ("version", VStr "PostgreSQL")]];
            totalCount := 3; idleCount := 2; waitingCount := 0 |} [])
  = Returned (VObj [("connected", VBool true);
                    ("currentTime", VStr "2024-01-01");
                    ("version", VStr "PostgreSQL");
                    ("poolStats", VObj [("totalCount", VNum 3); ("idleCount", VNum 2);
                                        ("waitingCount", VNum 0)])]).
Proof. reflexivity. Qed.

(** ** Trailing parameters of find *)

Lemma findBase_count table conditions opts :
  dcount (findBase table conditions opts) = S (length (flat_map findValues conditions)).
Proof.
  unfold findBase.
  pose proof (addOrderBy_ok opts _ (addWhere_ok table conditions opts)) as [_ Hc].
  now rewrite Hc, addOrderBy_values, addWhere_values.
Qed.

Lemma findStatement_text table conditions opts :
  let n := length (flat_map findValues conditions) in
  fst (findStatement table conditions opts)
  = query (findBase table conditions opts)
      ++ (if truthy (orNull (limit opts)) then [Lit " LIMIT "; Param (S n)] else [])
      ++ (if truthy (orNull (offset opts))
          then [Lit " OFFSET ";
                Param (if truthy (orNull (limit opts)) then S (S n) else S n)]
          else []).
Proof.
  intros n. unfold findStatement, findDraft. cbn [fst].
  fold (findBase table conditions opts).
  pose proof (findBase_count table conditions opts) as Hc. fold n in Hc.
  unfold addOffset, addLimit.
  destruct (truthy (orNull (limit opts))), (truthy (orNull (offset opts)));
    cbn [query dcount]; rewrite ?Hc, <- ?app_assoc, ?app_nil_r; reflexivity.
Qed.

(** C8. A find with limit 10 and offset 5 appends exactly two trailing
    parameters, 10 then 5, after all condition parameters, the text
    ending in [LIMIT $n+1 OFFSET $n+2] after the [n] condition
    placeholders; in general the limit and then the offset are appended,
    each exactly when the value supplied is truthy. *)
Theorem limit_then_offset_trail
  (table : string) (conditions : object)
  (cols order op : option string) (opts' : options) :
  let opts := {| columns := cols; orderBy := order; limit := VNum 10; offset := VNum 5;
                 operator := op |} in
  let n := length (flat_map findValues conditions) in
  snd (findStatement table conditions opts)
  = flat_map findValues conditions ++ [VNum 10; VNum 5]
  /\ fst (findStatement table conditions opts)
     = query (findBase table conditions opts)
         ++ [Lit " LIMIT "; Param (n + 1); Lit " OFFSET "; Param (n + 2)]
  /\ placeholders (query (findBase table conditions opts)) = seq 1 n
  /\ snd (findStatement table conditions opts')
     = flat_map findValues conditions
         ++ (if truthy (orNull (limit opts')) then [orNull (limit opts')] else [])
         ++ (if truthy (orNull (offset opts')) then [orNull (offset opts')] else [])
  /\ fst (findStatement table conditions opts')
     = query (findBase table conditions opts')
         ++ (if truthy (orNull (limit opts')) then [Lit " LIMIT "; Param (S n)] else [])
         ++ (if truthy (orNull (offset opts'))
             then [Lit " OFFSET ";
                   Param (if truthy (orNull (limit opts')) then S (S n) else S n)]
             else []).
Proof.
  intros opts n.
  split; [rewrite findStatement_values; reflexivity|].
  split.
  { rewrite findStatement_text. fold n. cbn [limit offset opts orNull truthy Z.eqb negb app].
    rewrite Nat.add_1_r, Nat.add_comm. reflexivity. }
  split.
  { unfold findBase.
    pose proof (addOrderBy_ok opts _ (addWhere_ok table conditions opts)) as [Hp _].
    now rewrite Hp, addOrderBy_values, addWhere_values. }
  split; [apply findStatement_values | apply findStatement_text].
Qed.

Example find_limit_offset :
  let '(q, vs) :=
    findStatement "designs" [("client", VStr "John Doe"); ("fabric", VStr "Cotton")]
      {| columns := None; orderBy := None; limit := VNum 10; offset := VNum 5;
         operator := None |} in
  render q = "SELECT * FROM designs WHERE client = $1 AND fabric = $2 LIMIT $3 OFFSET $4"
  /\ vs = [VStr "John Doe"; VStr "Cotton"; VNum 10; VNum 5].
Proof. split; reflexivity. Qed.

Example find_offset_zero_is_dropped :
  let '(q, vs) :=
    findStatement "designs" []
      {| columns := None; orderBy := None; limit := VNum 10; offset := VNum 0;
         operator := None |} in
  render q = "SELECT * FROM designs LIMIT $1" /\ vs = [VNum 10].
Proof. split; reflexivity. Qed.

(** ** Membership and null conditions of find *)

(** C9. Wherever a find's condition set maps a key to the sequence
    [1, 2, 3], the builder produces for that key a membership clause with
    exactly three placeholders, numbered from the counter on, advances
    the counter by three and appends the values 1, 2, 3 to the parameter
    list in that order. *)
Theorem membership_clause_of_three
  (b : builder) (key table : string) (before after : object) (opts : options) :
  let entry := (key, VArr [VNum 1; VNum 2; VNum 3]) in
  let conditions := before ++ entry :: after in
  let n := length (flat_map findValues before) in
  findCondition b entry
  = {| paramCount := paramCount b + 3;
       values := values b ++ [VNum 1; VNum 2; VNum 3];
       whereConditions :=
         whereConditions b
           ++ [[Lit key; Lit " IN ("; Param (paramCount b); Lit ", ";
                Param (S (paramCount b)); Lit ", "; Param (S (S (paramCount b)));
                Lit ")"]] |}
  /\ query (addWhere table conditions opts)
     = [Lit "SELECT "; Lit (orElse (columns opts) "*"); Lit " FROM "; Lit table]
         ++ [Lit " WHERE "]
         ++ join [Lit " "; Lit (orElse (operator opts) "AND"); Lit " "]
              (findClauses 1 conditions)
  /\ nth_error (findClauses 1 conditions) (length before)
     = Some [Lit key; Lit " IN ("; Param (S n); Lit ", "; Param (S (S n)); Lit ", ";
             Param (S (S (S n))); Lit ")"]
  /\ placeholders [Lit key; Lit " IN ("; Param (S n); Lit ", "; Param (S (S n)); Lit ", ";
                   Param (S (S (S n))); Lit ")"]
     = [n + 1; n + 2; n + 3]
  /\ snd (findStatement table conditions opts)
     = flat_map findValues before
         ++ [VNum 1; VNum 2; VNum 3]
         ++ flat_map findValues after
         ++ (if truthy (orNull (limit opts)) then [orNull (limit opts)] else [])
         ++ (if truthy (orNull (offset opts)) then [orNull (offset opts)] else [])
  /\ (let '(q, vs) := findStatement "designs" [("id", VArr [VNum 1; VNum 2; VNum 3])]
                        noOptions in
      render q = "SELECT * FROM designs WHERE id IN ($1, $2, $3)"
      /\ vs = [VNum 1; VNum 2; VNum 3]).
Proof.
  intros entry conditions n.
  split; [rewrite findCondition_eq; reflexivity|].
  split; [rewrite addWhere_eq; [reflexivity | subst conditions; now destruct before]|].
  split; [subst conditions; rewrite findClauses_nth; reflexivity|].
  split; [cbn [placeholders]; repeat f_equal; lia|].
  split; [|split; reflexivity].
  rewrite findStatement_values. subst conditions.
  rewrite flat_map_app. cbn [flat_map]. rewrite <- !app_assoc. reflexivity.
Qed.

(** C10. Wherever a find's condition set maps a key to the null marker,
    the builder produces the clause [key IS NULL] for that key, leaves
    the counter where it was and contributes no entry to the positional
    parameter list. *)
Theorem null_condition_takes_no_parameter
  (b : builder) (key table : string) (before after : object) (opts : options) :
  let entry := (key, VNull) in
  let conditions := before ++ entry :: after in
  findCondition b entry
  = {| paramCount := paramCount b;
       values := values b;
       whereConditions := whereConditions b ++ [[Lit key; Lit " IS NULL"]] |}
  /\ query (addWhere table conditions opts)
     = [Lit "SELECT "; Lit (orElse (columns opts) "*"); Lit " FROM "; Lit table]
         ++ [Lit " WHERE "]
         ++ join [Lit " "; Lit (orElse (operator opts) "AND"); Lit " "]
              (findClauses 1 conditions)
  /\ nth_error (findClauses 1 conditions) (length before)
     = Some [Lit key; Lit " IS NULL"]
  /\ render [Lit key; Lit " IS NULL"] = (key ++ " IS NULL")%string
  /\ placeholders [Lit key; Lit " IS NULL"] = []
  /\ snd (findStatement table conditions opts)
     = snd (findStatement table (before ++ after) opts)
  /\ placeholders (fst (findStatement table conditions opts))
     = placeholders (fst (findStatement table (before ++ after) opts))
  /\ (let '(q, vs) := findStatement "designs" [("status", VNull)] noOptions in
      render q = "SELECT * FROM designs WHERE status IS NULL" /\ vs = []).
Proof.
  intros entry conditions.
  assert (Hv : flat_map findValues conditions = flat_map findValues (before ++ after)).
  { subst conditions. rewrite !flat_map_app. reflexivity. }
  split; [reflexivity|].
  split; [rewrite addWhere_eq; [reflexivity | subst conditions; now destruct before]|].
  split; [subst conditions; rewrite findClauses_nth; reflexivity|].
  split; [cbn [render render_frag]; now rewrite string_app_nil_r|].
  split; [reflexivity|].
  split; [now rewrite !findStatement_values, Hv|].
  split; [|split; reflexivity].
  rewrite (findStatement_numbered table conditions opts).
  rewrite (findStatement_numbered table (before ++ after) opts).
  now rewrite !findStatement_values, Hv.
Qed.

(** * Further properties of the database module *)

(** ** executeTransaction *)

Section Transactions.

Variable A : Type.
Variable db : Store.
Variable log : list event.
Variable operations : M A.
Hypothesis connect_ok : connect db = None.

Ltac run_tx :=
  unfold executeTransaction, bind, pool_connect, tryCatchFinally, tryCatch, client_query,
    client_release, throw, ret;
  rewrite ?connect_ok; cbn [render render_frag append].

(** X1. When BEGIN, the caller's operations and COMMIT all succeed, the
    transaction returns the operations' result; the statements are BEGIN,
    whatever the operations issue, then COMMIT, and the client is
    released last. No ROLLBACK is sent. *)
Lemma executeTransaction_commits (began committed : list row) (a : A) (log' : list event) :
  execute db "BEGIN" [] = Returned began ->
  operations db ((log ++ [Connected]) ++ [Queried "BEGIN" []]) = (Returned a, log') ->
  execute db "COMMIT" [] = Returned committed ->
  executeTransaction operations db log
  = (Returned a, (log' ++ [Queried "COMMIT" []]) ++ [Released]).
Proof.
  intros Hb Ho Hc. run_tx. rewrite Hb, Ho, Hc. reflexivity.
Qed.

(** X2. When the caller's operations fail, COMMIT is never sent: ROLLBACK is
    sent instead and, when it succeeds, the failure reaches the caller
    through the error mapping; the client is released last. *)
Lemma executeTransaction_rolls_back
  (began rolled : list row) (e : JsError) (log' : list event) :
  execute db "BEGIN" [] = Returned began ->
  operations db ((log ++ [Connected]) ++ [Queried "BEGIN" []]) = (Thrown e, log') ->
  execute db "ROLLBACK" [] = Returned rolled ->
  executeTransaction operations db log
  = (Thrown (mapError e), (log' ++ [Queried "ROLLBACK" []]) ++ [Released]).
Proof.
  intros Hb Ho Hr. run_tx. rewrite Hb, Ho, Hr, handleError_throws. reflexivity.
Qed.

(** X3. A failing COMMIT is followed by ROLLBACK and reported through the
    error mapping, and so is a failing BEGIN, after which the operations
    are not run at all. *)
Lemma executeTransaction_commit_or_begin_fails
  (began rolled : list row) (e : JsError) (a : A) (log' : list event) :
  execute db "ROLLBACK" [] = Returned rolled ->
  (execute db "BEGIN" [] = Returned began ->
   operations db ((log ++ [Connected]) ++ [Queried "BEGIN" []]) = (Returned a, log') ->
   execute db "COMMIT" [] = Thrown e ->
   executeTransaction operations db log
   = (Thrown (mapError e),
      ((log' ++ [Queried "COMMIT" []]) ++ [Queried "ROLLBACK" []]) ++ [Released]))
  /\ (execute db "BEGIN" [] = Thrown e ->
      executeTransaction operations db log
      = (Thrown (mapError e),
         (((log ++ [Connected]) ++ [Queried "BEGIN" []]) ++ [Queried "ROLLBACK" []])
           ++ [Released])).
Proof.
  intros Hr. split.
  - intros Hb Ho Hc. run_tx. rewrite Hb, Ho, Hc, Hr, handleError_throws. reflexivity.
  - intros Hb. run_tx. rewrite Hb, Hr, handleError_throws. reflexivity.
Qed.

(** X4. When ROLLBACK fails too, its error is what the caller gets, as the
    store reported it: the failure that caused the rollback is lost and
    the error mapping is not applied. The client is still released. *)
Lemma executeTransaction_rollback_fails
  (began : list row) (e e' : JsError) (log' : list event) :
  execute db "BEGIN" [] = Returned began ->
  operations db ((log ++ [Connected]) ++ [Queried "BEGIN" []]) = (Thrown e, log') ->
  execute db "ROLLBACK" [] = Thrown e' ->
  executeTransaction operations db log
  = (Thrown e', (log' ++ [Queried "ROLLBACK" []]) ++ [Released]).
Proof.
  intros Hb Ho Hr. run_tx. rewrite Hb, Ho, Hr. reflexivity.
Qed.

End Transactions.

(** A transaction whose operations insert one design. *)
Lemma executeTransaction_commits_witness :
  executeTransaction (client_query [Lit "INSERT INTO designs DEFAULT VALUES"] []) emptyStore []
  = (Returned [],
     [Connected; Queried "BEGIN" []; Queried "INSERT INTO designs DEFAULT VALUES" [];
      Queried "COMMIT" []; Released]).
Proof.
  exact (executeTransaction_commits (list row) emptyStore []
           (client_query [Lit "INSERT INTO designs DEFAULT VALUES"] []) eq_refl
           [] [] [] _ eq_refl eq_refl eq_refl).
Defined.

Lemma executeTransaction_rolls_back_witness :
  executeTransaction (throw (Error "stop") : M unit) emptyStore []
  = (Thrown (Error "Database operation failed: stop"),
     [Connected; Queried "BEGIN" []; Queried "ROLLBACK" []; Released]).
Proof.
  exact (executeTransaction_rolls_back unit emptyStore [] (throw (Error "stop")) eq_refl
           [] [] (Error "stop") _ eq_refl eq_refl eq_refl).
Defined.

Lemma executeTransaction_commit_or_begin_fails_witness :
  fst (executeTransaction (ret tt) failingCommitStore [])
  = Thrown (Error "Database operation failed: could not serialize access")
  /\ snd (executeTransaction (ret tt) failingCommitStore [])
     = [Connected; Queried "BEGIN" []; Queried "COMMIT" []; Queried "ROLLBACK" []; Released].
Proof.
  pose proof (proj1 (executeTransaction_commit_or_begin_fails unit failingCommitStore []
                       (ret tt) eq_refl [] []
                       {| code := Some "40001"; message := "could not serialize access" |}
                       tt _ eq_refl) eq_refl eq_refl eq_refl) as H.
  rewrite H. split; reflexivity.
Defined.

Lemma executeTransaction_rollback_fails_witness :
  executeTransaction (throw (Error "stop") : M unit) noRollbackStore []
  = (Thrown {| code := Some "25P01"; message := "no transaction in progress" |},
     [Connected; Queried "BEGIN" []; Queried "ROLLBACK" []; Released]).
Proof.
  exact (executeTransaction_rollback_fails unit noRollbackStore [] (throw (Error "stop")) eq_refl
           [] (Error "stop") _ _ eq_refl eq_refl eq_refl).
Defined.

(** ** The connection of the four operations *)

(** X5. Once the pool has handed out a client, each of the four operations
    releases it exactly once, as the last thing it does, whatever
    happens in between, and sends at most one statement. *)
Theorem client_is_released_once
  (db : Store) (log : list event) (table : string) (data conditions : object)
  (opts : options) (returnFields : option string) :
  connect db = None ->
  let disciplined (events : list event) :=
    exists between,
      events = log ++ Connected :: between ++ [Released]
      /\ releases between = 0
      /\ statements between <= 1 in
  disciplined (snd (addToDB table data returnFields db log))
  /\ disciplined (snd (getFromDB table conditions opts db log))
  /\ disciplined (snd (updateInDB table data conditions returnFields db log))
  /\ disciplined (snd (deleteFromDB table conditions returnFields db log)).
Proof.
  intros Hc disciplined. subst disciplined. cbv beta.
  assert (Hone : forall sql params,
             exists between,
               ((log ++ [Connected]) ++ [Queried sql params]) ++ [Released]
               = log ++ Connected :: between ++ [Released]
               /\ releases between = 0 /\ statements between <= 1).
  { intros sql params. exists [Queried sql params].
    rewrite <- !app_assoc. repeat split. apply le_n. }
  assert (Hnone : exists between,
             (log ++ [Connected]) ++ [Released]
             = log ++ Connected :: between ++ [Released]
             /\ releases between = 0 /\ statements between <= 1).
  { exists []. rewrite <- !app_assoc. repeat split. apply Nat.le_0_l. }
  split; [|split; [|split]].
  - rewrite addToDB_run by exact Hc.
    destruct (insertStatement _ _ _) as [q vs]. apply Hone.
  - rewrite getFromDB_run by exact Hc.
    destruct (findStatement _ _ _) as [q vs]. apply Hone.
  - destruct conditions as [|c cs].
    + rewrite updateInDB_unscoped by exact Hc. apply Hnone.
    + destruct data as [|d ds].
      * rewrite updateInDB_no_data by (exact Hc || discriminate). apply Hnone.
      * rewrite updateInDB_run by (exact Hc || discriminate).
        destruct (updateStatement _ _ _ _) as [q vs]. apply Hone.
  - destruct conditions as [|c cs].
    + rewrite deleteFromDB_unscoped by exact Hc. apply Hnone.
    + rewrite deleteFromDB_run by (exact Hc || discriminate).
      destruct (deleteStatement _ _ _) as [q vs]. apply Hone.
Qed.

Lemma client_is_released_once_witness :
  exists between,
    snd (updateInDB "designs" sampleData sampleConditions None strictStore [])
    = [] ++ Connected :: between ++ [Released]
    /\ releases between = 0
    /\ statements between <= 1.
Proof.
  exact (proj1 (proj2 (proj2
           (client_is_released_once strictStore [] "designs" sampleData sampleConditions
              sampleOptions None eq_refl)))).
Defined.

(** X6. When the pool hands out no client, every operation fails with the
    pool's own error, which does not go through the error mapping, and
    nothing is sent or released. *)
Theorem no_client_no_mapping
  (db : Store) (log : list event) (e : JsError) (table : string) (data conditions : object)
  (opts : options) (returnFields : option string) (A : Type) (operations : M A) :
  connect db = Some e ->
  addToDB table data returnFields db log = (Thrown e, log)
  /\ getFromDB table conditions opts db log = (Thrown e, log)
  /\ updateInDB table data conditions returnFields db log = (Thrown e, log)
  /\ deleteFromDB table conditions returnFields db log = (Thrown e, log)
  /\ executeTransaction operations db log = (Thrown e, log).
Proof.
  intros H.
  unfold addToDB, getFromDB, updateInDB, deleteFromDB, executeTransaction, bind, pool_connect.
  rewrite H. repeat split.
Qed.

Lemma no_client_no_mapping_witness :
  getFromDB "designs" [] noOptions saturatedStore []
  = (Thrown (Error "timeout exceeded when trying to connect"), []).
Proof.
  destruct (no_client_no_mapping saturatedStore [] _ "designs" [] [] noOptions None unit
              (ret tt) eq_refl) as (_ & H & _).
  exact H.
Defined.

(** ** testConnection and the client *)

(** X7. [testConnection] releases its client only after the probe statement
    has succeeded: when the probe fails, the failure is reported in the
    returned value and the client it acquired is never released. *)
Theorem testConnection_keeps_client_on_failure
  (db : Store) (log : list event) (e : JsError) (rows : list row) :
  connect db = None ->
  let probe := "SELECT NOW() as current_time, version() as version" in
  (execute db probe [] = Thrown e ->
   testConnection db log
   = (Returned (VObj [("connected", VBool false); ("error", VStr (message e))]),
      (log ++ [Connected]) ++ [Queried probe []]))
  /\ (execute db probe [] = Returned rows ->
      snd (testConnection db log)
      = ((log ++ [Connected]) ++ [Queried probe []]) ++ [Released]).
Proof.
  intros Hc probe. subst probe.
  unfold testConnection, tryCatch, bind, pool_connect, client_query, client_release,
    firstRowField, ret, throw.
  rewrite Hc. cbn [render render_frag append].
  split; intros H; rewrite H; [reflexivity|].
  destruct rows; reflexivity.
Qed.

Lemma testConnection_keeps_client_on_failure_witness :
  releases (snd (testConnection strictStore [])) = 0
  /\ releases (snd (testConnection echoStore [])) = 1.
Proof.
  destruct (testConnection_keeps_client_on_failure strictStore []
              {| code := Some "42601"; message := "syntax error" |} [] eq_refl) as (H & _).
  destruct (testConnection_keeps_client_on_failure echoStore []
              (Error "") [sampleRow] eq_refl) as (_ & H').
  rewrite (H eq_refl), (H' eq_refl). split; reflexivity.
Defined.

(** ** The statements of update and delete, clause by clause *)

Lemma mutateCondition_eq (b : builder) (entry : string * value) :
  mutateCondition b entry
  = {| paramCount := paramCount b + length (mutateValues entry);
       values := values b ++ mutateValues entry;
       whereConditions := whereConditions b ++ [mutateClause (paramCount b) entry] |}.
Proof.
  destruct entry as [key v]. unfold mutateCondition, mutateValues, mutateClause. cbn [snd].
  assert (Hone : forall w,
             equalsClause b key w
             = {| paramCount := paramCount b + 1; values := values b ++ [w];
                  whereConditions :=
                    whereConditions b ++ [[Lit key; Lit " = "; Param (paramCount b)]] |}).
  { intros w. unfold equalsClause. now rewrite Nat.add_1_r. }
  destruct v; try apply Hone.
  - unfold isNullClause. now rewrite Nat.add_0_r, app_nil_r.
  - unfold inClause. now rewrite takePlaceholders_spec.
Qed.

Lemma fold_mutateCondition (es : list (string * value)) (b : builder) :
  fold_left mutateCondition es b
  = {| paramCount := paramCount b + length (flat_map mutateValues es);
       values := values b ++ flat_map mutateValues es;
       whereConditions := whereConditions b ++ mutateClauses (paramCount b) es |}.
Proof.
  revert b. induction es as [|e es IH]; intros b; cbn [fold_left flat_map mutateClauses].
  - destruct b. cbn. now rewrite Nat.add_0_r, !app_nil_r.
  - rewrite IH, mutateCondition_eq. cbn [paramCount values whereConditions].
    rewrite length_app, <- !app_assoc, Nat.add_assoc. reflexivity.
Qed.

Lemma fold_setField (es : list (string * value)) (b : builder) :
  fold_left setField es b
  = {| paramCount := paramCount b + length es;
       values := values b ++ map snd es;
       whereConditions := whereConditions b ++ setClauses (paramCount b) es |}.
Proof.
  revert b. induction es as [|[key v] es IH]; intros b; cbn [fold_left map setClauses length].
  - destruct b. cbn. now rewrite Nat.add_0_r, !app_nil_r.
  - rewrite IH. unfold setField. cbn [paramCount values whereConditions].
    rewrite <- !app_assoc, Nat.add_succ_r. reflexivity.
Qed.

Lemma updateStatement_eq table data conditions returnFields :
  updateStatement table data conditions returnFields
  = ([Lit (LF ++ "      UPDATE "); Lit table; Lit (LF ++ "      SET ")]
       ++ join [Lit ", "] (setClauses 1 data)
       ++ [Lit (LF ++ "      WHERE ")]
       ++ join [Lit " AND "] (mutateClauses (1 + length data) conditions)
       ++ [Lit (LF ++ "      RETURNING "); Lit returnFields; Lit (";" ++ LF ++ "    ")],
     vals data ++ flat_map mutateValues conditions).
Proof.
  unfold updateStatement, entries, vals.
  rewrite fold_setField. cbn [paramCount values whereConditions app].
  rewrite fold_mutateCondition. cbn [paramCount values whereConditions app].
  reflexivity.
Qed.

Lemma deleteStatement_eq table conditions returnFields :
  deleteStatement table conditions returnFields
  = ([Lit (LF ++ "      DELETE FROM "); Lit table; Lit (LF ++ "      WHERE ")]
       ++ join [Lit " AND "] (mutateClauses 1 conditions)
       ++ [Lit (LF ++ "      RETURNING "); Lit returnFields; Lit (";" ++ LF ++ "    ")],
     flat_map mutateValues conditions).
Proof.
  unfold deleteStatement, entries.
  rewrite fold_mutateCondition. cbn [paramCount values whereConditions app].
  reflexivity.
Qed.

(** *** Renumbering *)

Lemma shift_app (k : nat) (a b : text) : shift k (a ++ b) = shift k a ++ shift k b.
Proof. apply map_app. Qed.

Lemma shift_join (k : nat) (sep : text) (parts : list text) :
  shift k sep = sep ->
  shift k (join sep parts) = join sep (map (shift k) parts).
Proof.
  intros Hsep. induction parts as [|p [|q rest] IH].
  - reflexivity.
  - reflexivity.
  - change (join sep (p :: q :: rest)) with (p ++ sep ++ join sep (q :: rest)).
    rewrite !shift_app, Hsep, IH. reflexivity.
Qed.

Lemma shift_params (k p n : nat) :
  map (shift k) (map (fun i => [Param i]) (seq p n))
  = map (fun i => [Param i]) (seq (p + k) n).
Proof.
  revert p. induction n as [|n IH]; intros p; cbn [seq map].
  - reflexivity.
  - rewrite IH. reflexivity.
Qed.

Lemma mutateClause_shift (k p : nat) (entry : string * value) :
  mutateClause (p + k) entry = shift k (mutateClause p entry).
Proof.
  destruct entry as [key v]. unfold mutateClause.
  destruct v; try reflexivity.
  rewrite !shift_app, shift_join, shift_params by reflexivity. reflexivity.
Qed.

Lemma mutateClauses_shift (k p : nat) (es : list (string * value)) :
  mutateClauses (p + k) es = map (shift k) (mutateClauses p es).
Proof.
  revert p. induction es as [|e es IH]; intros p; cbn [mutateClauses map].
  - reflexivity.
  - rewrite mutateClause_shift. f_equal.
    rewrite <- IH. f_equal. lia.
Qed.

(** X8. In an update the values of the SET clause come first, in field
    order, followed by the values of the conditions; and the WHERE clause
    is the one delete builds for the same conditions, with every
    placeholder moved up by the number of fields. *)
Theorem update_is_set_then_where
  (table : string) (data conditions : object) (returnFields : string) :
  snd (updateStatement table data conditions returnFields)
  = vals data ++ snd (deleteStatement table conditions returnFields)
  /\ fst (updateStatement table data conditions returnFields)
     = [Lit (LF ++ "      UPDATE "); Lit table; Lit (LF ++ "      SET ")]
         ++ join [Lit ", "] (setClauses 1 data)
         ++ [Lit (LF ++ "      WHERE ")]
         ++ shift (length data) (join [Lit " AND "] (mutateClauses 1 conditions))
         ++ [Lit (LF ++ "      RETURNING "); Lit returnFields; Lit (";" ++ LF ++ "    ")]
  /\ fst (deleteStatement table conditions returnFields)
     = [Lit (LF ++ "      DELETE FROM "); Lit table; Lit (LF ++ "      WHERE ")]
         ++ join [Lit " AND "] (mutateClauses 1 conditions)
         ++ [Lit (LF ++ "      RETURNING "); Lit returnFields; Lit (";" ++ LF ++ "    ")]
  /\ placeholders (join [Lit ", "] (setClauses 1 data)) = seq 1 (length data).
Proof.
  rewrite updateStatement_eq, deleteStatement_eq. cbn [fst snd].
  split; [reflexivity|]. split; [|split; [reflexivity|]].
  - rewrite shift_join by reflexivity.
    rewrite <- mutateClauses_shift. reflexivity.
  - rewrite placeholders_join by reflexivity.
    generalize 1 as p. induction data as [|[key v] data IH]; intros p; cbn.
    + reflexivity.
    + now rewrite IH.
Qed.

(** ** Values never reach the statement text *)

Lemma setClauses_keys (p : nat) (es es' : list (string * value)) :
  keys es = keys es' -> setClauses p es = setClauses p es'.
Proof.
  revert p es'. induction es as [|[k v] es IH]; intros p [|[k' v'] es'] H;
    try discriminate H; [reflexivity|].
  cbn in H. injection H as -> H. cbn [setClauses]. now rewrite (IH (S p) es').
Qed.

Lemma mutateClause_shape (p : nat) (key : string) (v v' : value) :
  mutateShape v = mutateShape v' ->
  mutateClause p (key, v) = mutateClause p (key, v')
  /\ length (mutateValues (key, v)) = length (mutateValues (key, v')).
Proof.
  unfold mutateClause, mutateValues. cbn [snd].
  destruct v, v'; cbn [mutateShape]; intros H; try discriminate H; try (split; reflexivity).
  injection H as H. now rewrite H.
Qed.

Lemma findClause_shape (p : nat) (key : string) (v v' : value) :
  findShape v = findShape v' ->
  findClause p (key, v) = findClause p (key, v')
  /\ length (findValues (key, v)) = length (findValues (key, v')).
Proof.
  unfold findClause, findValues. cbn [snd].
  destruct v, v'; cbn [findShape]; intros H;
    repeat match goal with
      | H : context [truthy ?x] |- _ => destruct (truthy x)
      | |- context [truthy ?x] => destruct (truthy x)
      end;
    try discriminate H; try (split; reflexivity).
  - injection H as H. now rewrite H.
  - injection H as H. now rewrite H.
Qed.

(** The part of a condition set the text depends on: keys and shapes. *)
Lemma mutateClauses_shape (p : nat) (es es' : list (string * value)) :
  map (fun e => (fst e, mutateShape (snd e))) es
  = map (fun e => (fst e, mutateShape (snd e))) es' ->
  mutateClauses p es = mutateClauses p es'.
Proof.
  revert p es'. induction es as [|[k v] es IH]; intros p [|[k' v'] es'] H;
    try discriminate H; [reflexivity|].
  cbn in H. injection H as -> Hs H.
  destruct (mutateClause_shape p k' v v' Hs) as [Hc Hl].
  cbn [mutateClauses]. now rewrite Hc, Hl, (IH _ es').
Qed.

Lemma findClauses_shape (p : nat) (es es' : list (string * value)) :
  map (fun e => (fst e, findShape (snd e))) es
  = map (fun e => (fst e, findShape (snd e))) es' ->
  findClauses p es = findClauses p es'
  /\ length (flat_map findValues es) = length (flat_map findValues es').
Proof.
  revert p es'. induction es as [|[k v] es IH]; intros p [|[k' v'] es'] H;
    try discriminate H; [split; reflexivity|].
  cbn in H. injection H as -> Hs H.
  destruct (findClause_shape p k' v v' Hs) as [Hc Hl].
  cbn [findClauses flat_map]. rewrite !length_app, Hc, Hl.
  destruct (IH (p + length (findValues (k', v'))) es' H) as [Hcs Hls].
  now rewrite Hcs, Hls.
Qed.

(** X9. The text of a statement is a function of the table, the keys and the
    shape of each condition (null, a sequence of a given length, a
    comparison with a given operator, a plain value): no field value, no
    condition value and no element of a sequence ever becomes part of the
    text, and neither do the limit and the offset beyond being present. *)
Theorem text_does_not_depend_on_values
  (table : string) (data data' conditions conditions' : object)
  (opts opts' : options) (returnFields : string) :
  keys data = keys data' ->
  map (fun e => (fst e, mutateShape (snd e))) conditions
  = map (fun e => (fst e, mutateShape (snd e))) conditions' ->
  map (fun e => (fst e, findShape (snd e))) conditions
  = map (fun e => (fst e, findShape (snd e))) conditions' ->
  columns opts = columns opts' ->
  orderBy opts = orderBy opts' ->
  operator opts = operator opts' ->
  truthy (orNull (limit opts)) = truthy (orNull (limit opts')) ->
  truthy (orNull (offset opts)) = truthy (orNull (offset opts')) ->
  fst (insertStatement table data returnFields)
  = fst (insertStatement table data' returnFields)
  /\ fst (updateStatement table data conditions returnFields)
     = fst (updateStatement table data' conditions' returnFields)
  /\ fst (deleteStatement table conditions returnFields)
     = fst (deleteStatement table conditions' returnFields)
  /\ fst (findStatement table conditions opts)
     = fst (findStatement table conditions' opts').
Proof.
  intros Hk Hm Hf Hcol Hord Hop Hlim Hoff.
  assert (Hlen : length data = length data').
  { unfold keys in Hk. apply (f_equal (@length string)) in Hk.
    now rewrite !length_map in Hk. }
  split; [|split; [|split]].
  - unfold insertStatement. cbn [fst]. rewrite Hk. reflexivity.
  - rewrite !updateStatement_eq. cbn [fst].
    rewrite (setClauses_keys 1 data data' Hk), Hlen.
    now rewrite (mutateClauses_shape _ conditions conditions' Hm).
  - rewrite !deleteStatement_eq. cbn [fst].
    now rewrite (mutateClauses_shape _ conditions conditions' Hm).
  - destruct (findClauses_shape 1 conditions conditions' Hf) as [Hcs Hls].
    rewrite !findStatement_text. cbv zeta. rewrite Hls, Hlim, Hoff. f_equal.
    unfold findBase, addOrderBy. rewrite Hord.
    assert (Hq : query (addWhere table conditions opts)
                 = query (addWhere table conditions' opts')).
    { destruct conditions as [|c cs], conditions' as [|c' cs']; try discriminate Hf.
      - unfold addWhere. cbn. now rewrite Hcol.
      - rewrite !addWhere_eq by discriminate. cbn [query]. now rewrite Hcol, Hop, Hcs. }
    destruct (orderBy opts') as [o|]; [|exact Hq].
    destruct (negb (String.eqb o "")); [|exact Hq].
    cbn [query]. now rewrite Hq.
Qed.

Lemma text_does_not_depend_on_values_witness :
  fst (updateStatement "designs" sampleData sampleConditions "*")
  = fst (updateStatement "designs" otherData otherConditions "*")
  /\ fst (findStatement "designs" sampleConditions sampleOptions)
     = fst (findStatement "designs" otherConditions sampleOptions).
Proof.
  destruct (text_does_not_depend_on_values "designs" sampleData otherData
              sampleConditions otherConditions sampleOptions sampleOptions "*"
              eq_refl eq_refl eq_refl eq_refl eq_refl eq_refl eq_refl eq_refl)
    as (_ & Hu & _ & Hf).
  exact (conj Hu Hf).
Defined.

(** ** Conditions of find against conditions of update and delete *)



(** ** Reads *)

(** X11. A find needs no condition: with none the statement has no WHERE
    clause and no parameter. And whatever the conditions, the rows the
    store reports are returned as they are; an empty result is not an
    error. *)
Theorem find_may_be_unscoped_and_empty
  (db : Store) (log : list event) (table : string) (conditions : object) (opts : options)
  (rows : list row) :
  connect db = None ->
  execute db (render (fst (findStatement table conditions opts)))
    (snd (findStatement table conditions opts)) = Returned rows ->
  fst (getFromDB table conditions opts db log) = Returned rows
  /\ findStatement table [] noOptions
     = ([Lit "SELECT "; Lit "*"; Lit " FROM "; Lit table], [])
  /\ render (fst (findStatement table [] noOptions)) = ("SELECT * FROM " ++ table)%string.
Proof.
  intros Hc H. split; [|split].
  - rewrite getFromDB_run by exact Hc.
    destruct (findStatement _ _ _) as [q vs]. cbn [fst snd] in *. now rewrite H.
  - reflexivity.
  - cbn. now rewrite string_app_nil_r.
Qed.

Lemma find_may_be_unscoped_and_empty_witness :
  fst (getFromDB "designs" [] noOptions emptyStore []) = Returned [].
Proof.
  exact (proj1 (find_may_be_unscoped_and_empty emptyStore [] "designs" [] noOptions []
                  eq_refl eq_refl)).
Defined.

(** * Properties of the helpers of the HTTP layer *)

(** ** Trimming *)

Lemma trimStart_empty (s : string) :
  trimStart s = EmptyString <-> all_chars is_space s = true.
Proof.
  induction s as [|c s IH]; cbn [trimStart all_chars].
  - tauto.
  - destruct (is_space c); cbn [andb]; [exact IH|].
    split; intros H; discriminate H.
Qed.

Lemma reverse_empty (s : string) : reverse s = EmptyString <-> s = EmptyString.
Proof.
  unfold reverse. split; intros H.
  - destruct s as [|c s]; [reflexivity|]. cbn [list_ascii_of_string List.rev] in H.
    destruct (List.rev (list_ascii_of_string s)); discriminate H.
  - now subst.
Qed.

Lemma trimStart_keeps_nonspace (l : list ascii) (c : ascii) :
  is_space c = false ->
  trimStart (string_of_list_ascii (l ++ [c])) <> EmptyString.
Proof.
  intros Hc. induction l as [|d l IH]; cbn [List.app string_of_list_ascii trimStart].
  - rewrite Hc. discriminate.
  - destruct (is_space d); [exact IH | discriminate].
Qed.

Lemma trim_empty (s : string) : trim s = EmptyString <-> all_chars is_space s = true.
Proof.
  rewrite <- trimStart_empty. unfold trim, trimEnd. split; intros H.
  - destruct (trimStart s) as [|c r] eqn:E; [reflexivity|]. exfalso.
    assert (Hc : is_space c = false).
    { destruct s as [|d s]; [discriminate E|].
      revert E. clear. revert d. induction s as [|d' s IH]; intros d; cbn [trimStart].
      - destruct (is_space d) eqn:Hd; intros E; [discriminate E|]. now injection E as <- _.
      - destruct (is_space d) eqn:Hd; intros E; [|now injection E as <- _].
        exact (IH d' E). }
    apply (proj1 (reverse_empty _)) in H.
    unfold reverse in H. cbn [list_ascii_of_string List.rev] in H.
    exact (trimStart_keeps_nonspace _ c Hc H).
  - rewrite H. reflexivity.
Qed.

(** ** validateRequiredFields *)

(** X12. [validateRequiredFields] returns exactly when every required field
    of the body is truthy and, if it is a string, holds a character that
    is not white space. So an absent field, [null], [false], the number 0,
    the empty string and a blank string all count as missing. Otherwise
    it throws, naming every such field, in the order required. *)
Theorem validateRequiredFields_decides (data : object) (requiredFields : list string) :
  forallb ownName requiredFields = true ->
  let present field :=
    truthy (get data field) = true
    /\ forall s, get data field = VStr s -> all_chars is_space s = false in
  (validateRequiredFields data requiredFields = Returned tt
   <-> Forall present requiredFields)
  /\ (validateRequiredFields data requiredFields <> Returned tt ->
      validateRequiredFields data requiredFields
      = Thrown (Error ("Missing required fields: "
                         ++ String.concat ", " (filter (isMissing data) requiredFields))))
  /\ (forall field,
         In field (filter (isMissing data) requiredFields)
         <-> In field requiredFields /\ ~ present field).
Proof.
  intros _ present.
  assert (Hmiss : forall field, isMissing data field = false <-> present field).
  { intros field. unfold isMissing, present.
    destruct (truthy (get data field)) eqn:Ht; cbn [negb orb].
    - destruct (get data field) as [| | | |s| |] eqn:Hg;
        try (split; [intros _; split; [reflexivity | intros s' Hs; discriminate Hs]
                    | reflexivity]).
      split.
      + intros H. split; [reflexivity|]. intros s' Hs. injection Hs as <-.
        destruct (all_chars is_space s) eqn:Hall; [|reflexivity].
        apply trim_empty in Hall. rewrite Hall in H. discriminate H.
      + intros [_ H]. specialize (H s eq_refl).
        destruct (String.eqb (trim s) "") eqn:E; [|reflexivity].
        apply String.eqb_eq, trim_empty in E. congruence.
    - split; [discriminate | intros [H _]; discriminate H]. }
  assert (Hnil : filter (isMissing data) requiredFields = [] <-> Forall present requiredFields).
  { induction requiredFields as [|f fs IH]; cbn [filter].
    - split; [constructor | reflexivity].
    - destruct (isMissing data f) eqn:E.
      + split; [discriminate|]. intros H. inversion H as [|? ? Hp _]; subst.
        apply Hmiss in Hp. congruence.
      + rewrite IH. split; intros H.
        * constructor; [now apply Hmiss | exact H].
        * now inversion H. }
  unfold validateRequiredFields. cbv zeta.
  destruct (filter (isMissing data) requiredFields) as [|m ms] eqn:Ef.
  - cbn [length Nat.ltb Nat.leb]. split; [|split].
    + split; intros _; [now apply Hnil | reflexivity].
    + intros H. now contradiction H.
    + intros field. split; [intros []|]. intros [Hin Hn]. exfalso. apply Hn.
      assert (Hall : Forall present requiredFields) by now apply Hnil.
      rewrite Forall_forall in Hall. now apply Hall.
  - cbn [length Nat.ltb Nat.leb]. split; [|split].
    + split; [discriminate|]. intros H. apply Hnil in H. discriminate H.
    + reflexivity.
    + intros field. rewrite <- Ef, filter_In. split; intros [Hin H]; split; try exact Hin.
      * intros Hp. apply Hmiss in Hp. congruence.
      * destruct (isMissing data field) eqn:E; [reflexivity|].
        apply Hmiss in E. contradiction.
Qed.

Lemma validateRequiredFields_decides_witness :
  validateRequiredFields
    [("designId", VStr "D001"); ("clientCode", VStr "   "); ("fabric", VNum 0)]
    ["designId"; "clientCode"; "fabric"]
  = Thrown (Error "Missing required fields: clientCode, fabric").
Proof.
  destruct (validateRequiredFields_decides
              [("designId", VStr "D001"); ("clientCode", VStr "   "); ("fabric", VNum 0)]
              ["designId"; "clientCode"; "fabric"] eq_refl) as (_ & H & _).
  apply H. discriminate.
Defined.

(** ** validateFile *)

(** X13. [validateFile] accepts a file exactly when there is one, its MIME
    type starts with [image/] and it has at most 10 MiB. The type is
    looked at before the size, and everything the upload middleware lets
    through (its filter and its size limit) is accepted. *)
Theorem validateFile_accepts (file : option upload) :
  (validateFile file = Returned tt
   <-> exists f, file = Some f
                 /\ String.prefix "image/" (mimetype f) = true
                 /\ (size f <= 10485760)%Z)
  /\ (forall f, String.prefix "image/" (mimetype f) = false ->
                validateFile (Some f) = Thrown (Error "Only image files are allowed"))
  /\ (forall f, String.prefix "image/" (mimetype f) = true ->
                (size f > 10485760)%Z ->
                validateFile (Some f)
                = Thrown (Error "File too large. Maximum size is 10MB"))
  /\ (forall f, fileFilter f = Returned true ->
                (size f <= uploadFileSize)%Z ->
                validateFile (Some f) = Returned tt).
Proof.
  assert (Hok : forall f, String.prefix "image/" (mimetype f) = true ->
                          (size f <= 10485760)%Z -> validateFile (Some f) = Returned tt).
  { intros f Hp Hs. unfold validateFile. rewrite Hp. cbn [negb].
    destruct (size f >? FILE_SIZE_LIMIT)%Z eqn:E; [|reflexivity].
    rewrite Z.gtb_ltb in E. apply Z.ltb_lt in E. unfold FILE_SIZE_LIMIT in E. lia. }
  split; [|split; [|split]].
  - split.
    + destruct file as [f|]; [|discriminate]. unfold validateFile.
      destruct (String.prefix "image/" (mimetype f)) eqn:Hp; cbn [negb]; [|discriminate].
      destruct (size f >? FILE_SIZE_LIMIT)%Z eqn:E; [discriminate|]. intros _.
      exists f. split; [reflexivity|]. split; [exact Hp|].
      rewrite Z.gtb_ltb in E. apply Z.ltb_ge in E. unfold FILE_SIZE_LIMIT in E. lia.
    + intros (f & -> & Hp & Hs). now apply Hok.
  - intros f Hp. unfold validateFile. now rewrite Hp.
  - intros f Hp Hs. unfold validateFile. rewrite Hp. cbn [negb].
    destruct (size f >? FILE_SIZE_LIMIT)%Z eqn:E; [reflexivity|].
    rewrite Z.gtb_ltb in E. apply Z.ltb_ge in E. unfold FILE_SIZE_LIMIT in E. lia.
  - intros f Hf Hs. apply Hok; [|unfold uploadFileSize in Hs; lia].
    unfold fileFilter in Hf. destruct (String.prefix "image/" (mimetype f));
      [reflexivity | discriminate Hf].
Qed.

Lemma validateFile_accepts_witness :
  validateFile (Some {| mimetype := "image/png"; size := 10485760 |}) = Returned tt
  /\ validateFile (Some {| mimetype := "image/png"; size := 10485761 |})
     = Thrown (Error "File too large. Maximum size is 10MB")
  /\ validateFile (Some {| mimetype := "text/html"; size := 10485761 |})
     = Thrown (Error "Only image files are allowed").
Proof.
  destruct (validateFile_accepts None) as (_ & Htype & Hsize & Hpass).
  split; [|split].
  - apply Hpass; [reflexivity | unfold uploadFileSize; cbn [size]; lia].
  - apply Hsize; [reflexivity | cbn [size]; lia].
  - apply Htype. reflexivity.
Defined.

(** ** sanitizeFilename *)

Lemma string_length_app (a b : string) :
  String.length (a ++ b) = String.length a + String.length b.
Proof. induction a; simpl; congruence. Qed.

(** X14. [sanitizeFilename] keeps the length of its argument, yields only
    letters, digits and underscores, changes nothing in a string that is
    already of that form and, applied twice, does nothing more. *)
Theorem sanitizeFilename_safe (str : string) :
  let safe c := isAlphanumeric c || Ascii.eqb c "_" in
  String.length (sanitizeFilename str) = String.length str
  /\ all_chars safe (sanitizeFilename str) = true
  /\ sanitizeFilename (sanitizeFilename str) = sanitizeFilename str
  /\ (sanitizeFilename str = str <-> all_chars safe str = true).
Proof.
  intros safe. subst safe. induction str as [|c str (Hlen & Hsafe & Hidem & Hfix)].
  - repeat split.
  - cbn [sanitizeFilename String.length all_chars]. rewrite Hlen, Hidem.
    split; [reflexivity|]. split; [|split].
    + rewrite Hsafe, andb_true_r. destruct (isAlphanumeric c) eqn:E.
      * now rewrite E.
      * reflexivity.
    + destruct (isAlphanumeric c) eqn:E; [now rewrite E | reflexivity].
    + split.
      * intros H. injection H as Hc Hs. apply Hfix in Hs. rewrite Hs, andb_true_r.
        destruct (isAlphanumeric c); [reflexivity|]. subst c. reflexivity.
      * intros H. apply andb_true_iff in H as [Hc Hs]. apply Hfix in Hs. rewrite Hs.
        destruct (isAlphanumeric c); [reflexivity|]. cbn [orb] in Hc.
        apply Ascii.eqb_eq in Hc. now subst c.
Qed.

(** ** The object key *)

Lemma count_char_app (c : ascii) (a b : string) :
  count_char c (a ++ b) = count_char c a + count_char c b.
Proof. induction a as [|d a IH]; cbn [append count_char]; [reflexivity | lia]. Qed.

Lemma count_char_absent (c : ascii) (s : string) :
  occurs c s = false -> count_char c s = 0.
Proof.
  induction s as [|d s IH]; cbn [occurs count_char]; [reflexivity|].
  intros H. apply orb_false_iff in H as [Hd Hs]. now rewrite Hd, IH.
Qed.

Lemma sanitizeFilename_no_slash (s : string) : occurs "/" (sanitizeFilename s) = false.
Proof.
  induction s as [|c s IH]; cbn [sanitizeFilename occurs]; [reflexivity|].
  rewrite IH, orb_false_r. destruct (isAlphanumeric c) eqn:E; [|reflexivity].
  destruct (Ascii.eqb "/" c) eqn:Hc; [|reflexivity].
  apply Ascii.eqb_eq in Hc. subst c. discriminate E.
Qed.

Lemma uint_no_slash (d : uint) : occurs "/" (NilEmpty.string_of_uint d) = false.
Proof. induction d; cbn; auto. Qed.

Lemma decimalZ_no_slash (n : Z) : occurs "/" (decimalZ n) = false.
Proof.
  unfold decimalZ, NilZero.string_of_int, NilZero.string_of_uint.
  destruct (Z.to_int n) as [d|d]; destruct d; try reflexivity;
    cbn [occurs Ascii.eqb Bool.eqb orb]; apply uint_no_slash.
Qed.

(** X15. The client's name cannot move an upload out of its folder: if the
    extension holds no slash, the only slash of the object key is the one
    after [worldvastradesigns]. *)
Theorem s3Key_stays_in_folder (clientName : string) (timestamp : Z) (fileExtension : string) :
  occurs "/" fileExtension = false ->
  count_char "/" (s3KeyFor clientName timestamp fileExtension) = 1
  /\ String.prefix "worldvastradesigns/" (s3KeyFor clientName timestamp fileExtension) = true.
Proof.
  intros He. unfold s3KeyFor. split.
  - rewrite !count_char_app.
    rewrite (count_char_absent _ _ (sanitizeFilename_no_slash clientName)).
    rewrite (count_char_absent _ _ (decimalZ_no_slash timestamp)).
    rewrite (count_char_absent _ _ He). reflexivity.
  - cbn. destruct (sanitizeFilename clientName ++ _)%string; reflexivity.
Qed.

Lemma s3Key_stays_in_folder_witness :
  s3KeyFor "../../etc/passwd" 1700000000000 ".png"
  = "worldvastradesigns/______etc_passwd_1700000000000.png"
  /\ count_char "/" (s3KeyFor "../../etc/passwd" 1700000000000 ".png") = 1.
Proof.
  split; [reflexivity|].
  exact (proj1 (s3Key_stays_in_folder "../../etc/passwd" 1700000000000 ".png" eq_refl)).
Defined.

(** ** getContentType *)

Lemma toLowerCaseChar_idempotent (c : ascii) :
  toLowerCaseChar (toLowerCaseChar c) = toLowerCaseChar c.
Proof. destruct c as [[] [] [] [] [] [] [] []]; reflexivity. Qed.

Lemma toLowerCase_idempotent (s : string) : toLowerCase (toLowerCase s) = toLowerCase s.
Proof.
  induction s as [|c s IH]; cbn [toLowerCase]; [reflexivity|].
  now rewrite toLowerCaseChar_idempotent, IH.
Qed.

(** X16. [getContentType] answers with one of the allowed image types or with
    [application/octet-stream], never with anything else; what it answers
    does not depend on the case of the extension's letters, and every
    type other than the fallback passes the type check of
    [validateFile]. *)
Theorem getContentType_known (extension : string) :
  isExtension extension = true ->
  (In (getContentType extension) ALLOWED_IMAGE_TYPES
   \/ getContentType extension = "application/octet-stream")
  /\ getContentType (toLowerCase extension) = getContentType extension
  /\ (getContentType extension <> "application/octet-stream" ->
      String.prefix "image/" (getContentType extension) = true).
Proof.
  intros _. split; [|split].
  - unfold getContentType, mimeTypes. cbn [lookup].
    repeat match goal with
      | |- context [if ?b then _ else _] => destruct b
      end; cbn [orElse ALLOWED_IMAGE_TYPES In]; tauto.
  - unfold getContentType. now rewrite toLowerCase_idempotent.
  - unfold getContentType, mimeTypes. cbn [lookup].
    repeat match goal with
      | |- context [if ?b then _ else _] => destruct b
      end; cbn [orElse]; intros H; try reflexivity.
    now contradiction H.
Qed.

Lemma getContentType_known_witness :
  getContentType ".JPeG" = "image/jpeg"
  /\ getContentType (toLowerCase ".JPeG") = getContentType ".JPeG".
Proof.
  split; [reflexivity|].
  exact (proj1 (proj2 (getContentType_known ".JPeG" eq_refl))).
Defined.

(** * Properties of the sheet helpers of app.js *)

(** ** Column letters and column numbers *)

Lemma columnToNumber_from_app (a b : string) (result : Z) :
  columnToNumber_from (a ++ b) result = columnToNumber_from b (columnToNumber_from a result).
Proof.
  revert result. induction a as [|c a IH]; intros result; cbn [append columnToNumber_from].
  - reflexivity.
  - apply IH.
Qed.

Lemma numberToColumn_loop_acc (rounds : nat) (number : Z) (result : string) :
  numberToColumn_loop rounds number result
  = (numberToColumn_loop rounds number EmptyString ++ result)%string.
Proof.
  revert number result. induction rounds as [|rounds IH]; intros number result;
    cbn [numberToColumn_loop].
  - reflexivity.
  - destruct (number >? 0)%Z; [|reflexivity]. cbv zeta.
    rewrite IH. rewrite (IH _ (String _ EmptyString)).
    rewrite string_app_assoc. reflexivity.
Qed.

Lemma next_number_smaller (number : Z) :
  (0 < number)%Z -> Z.to_nat ((number - 1) / 26) < Z.to_nat number.
Proof.
  intros H.
  assert (0 <= (number - 1) / 26 <= number - 1)%Z.
  { split; [apply Z.div_pos; lia|]. apply Z.div_le_upper_bound; lia. }
  lia.
Qed.

(** More rounds than [number] change nothing. *)
Lemma numberToColumn_loop_rounds (rounds : nat) (number : Z) (result : string) :
  Z.to_nat number <= rounds ->
  numberToColumn_loop rounds number result
  = numberToColumn_loop (Z.to_nat number) number result.
Proof.
  revert number result. induction rounds as [rounds IH] using lt_wf_ind.
  intros number result Hle.
  destruct (Z.gtb_spec number 0) as [Hpos|Hneg].
  - pose proof (next_number_smaller number Hpos) as Hnext.
    destruct rounds as [|rounds]; [lia|].
    destruct (Z.to_nat number) as [|k] eqn:Ek; [lia|].
    cbn [numberToColumn_loop].
    destruct (Z.gtb_spec number 0) as [_|Hn]; [|lia]. cbv zeta.
    rewrite (IH rounds) by lia. rewrite (IH k) by lia. reflexivity.
  - replace (Z.to_nat number) with 0 by lia.
    destruct rounds as [|rounds]; [reflexivity|]. cbn [numberToColumn_loop].
    destruct (Z.gtb_spec number 0) as [Hn|_]; [lia | reflexivity].
Qed.

Lemma charCode_fromCharCode (n : Z) :
  (0 <= n < 256)%Z -> charCode (fromCharCode n) = n.
Proof.
  intros H. unfold charCode, fromCharCode. rewrite nat_ascii_embedding by lia. lia.
Qed.

Lemma fromCharCode_charCode (c : ascii) : fromCharCode (charCode c) = c.
Proof.
  unfold charCode, fromCharCode. rewrite Nat2Z.id. apply ascii_nat_embedding.
Qed.

(** One round of the loop, for a positive number. *)
Lemma numberToColumn_step (number : Z) :
  (0 < number)%Z ->
  numberToColumn number
  = (numberToColumn ((number - 1) / 26)
       ++ String (fromCharCode (65 + (number - 1) mod 26)) EmptyString)%string.
Proof.
  intros Hpos. unfold numberToColumn.
  pose proof (next_number_smaller number Hpos) as Hnext.
  destruct (Z.to_nat number) as [|k] eqn:Ek; [lia|].
  cbn [numberToColumn_loop].
  destruct (Z.gtb_spec number 0) as [_|Hn]; [|lia]. cbv zeta.
  rewrite numberToColumn_loop_acc, numberToColumn_loop_rounds by lia.
  rewrite Z.rem_mod_nonneg by lia. reflexivity.
Qed.

Lemma numberToColumn_nonpositive (number : Z) :
  (number <= 0)%Z -> numberToColumn number = EmptyString.
Proof.
  intros H. unfold numberToColumn. replace (Z.to_nat number) with 0 by lia. reflexivity.
Qed.

Lemma all_chars_app (p : ascii -> bool) (a b : string) :
  all_chars p (a ++ b) = all_chars p a && all_chars p b.
Proof.
  induction a as [|c a IH]; cbn [append all_chars]; [reflexivity|].
  now rewrite IH, andb_assoc.
Qed.

(** X17. Numbering the columns and reading the letters back gives the number
    again, for every number from 0 up to the largest a JavaScript number
    holds exactly; the letters are all capitals, and zero (like every
    negative number) gives the empty string. *)
Theorem columnToNumber_numberToColumn (number : Z) :
  (0 <= number <= MAX_SAFE_INTEGER)%Z ->
  columnToNumber (numberToColumn number) = number
  /\ all_chars isUpper (numberToColumn number) = true
  /\ (numberToColumn number = EmptyString <-> number = 0%Z).
Proof.
  intros [Hnonneg _]. generalize Hnonneg. pattern number.
  apply Z_lt_induction; [|exact Hnonneg].
  clear number Hnonneg. intros number IH Hnonneg.
  destruct (Z.eq_dec number 0) as [->|Hne].
  - repeat split.
  - assert (Hpos : (0 < number)%Z) by lia.
    assert (Hq : (0 <= (number - 1) / 26 < number)%Z).
    { split; [apply Z.div_pos; lia|].
      assert ((number - 1) / 26 <= number - 1)%Z by (apply Z.div_le_upper_bound; lia). lia. }
    assert (Hr : (0 <= (number - 1) mod 26 < 26)%Z) by (apply Z.mod_pos_bound; lia).
    destruct (IH ((number - 1) / 26)%Z Hq (proj1 Hq)) as (Hval & Hup & _).
    rewrite numberToColumn_step by exact Hpos.
    split; [|split].
    + unfold columnToNumber in *. rewrite columnToNumber_from_app, Hval.
      cbn [columnToNumber_from]. rewrite charCode_fromCharCode by lia.
      change (charCode "A") with 65%Z.
      pose proof (Z.div_mod (number - 1) 26 ltac:(lia)). lia.
    + rewrite all_chars_app, Hup. cbn [all_chars andb]. rewrite andb_true_r.
      unfold isUpper, fromCharCode. rewrite nat_ascii_embedding by lia.
      apply andb_true_iff. split; apply Nat.leb_le; lia.
    + split; [|lia]. intros H.
      destruct (numberToColumn ((number - 1) / 26)); discriminate H.
Qed.

Lemma columnToNumber_numberToColumn_witness :
  numberToColumn 703 = "AAA" /\ columnToNumber (numberToColumn 703) = 703%Z.
Proof.
  split; [reflexivity|].
  assert (H : (0 <= 703 <= MAX_SAFE_INTEGER)%Z) by (unfold MAX_SAFE_INTEGER; lia).
  exact (proj1 (columnToNumber_numberToColumn 703 H)).
Defined.

Lemma columnToNumber_from_bound (column : string) (result : Z) :
  all_chars isUpper column = true ->
  (0 <= result)%Z ->
  (result <= columnToNumber_from column result
   /\ 25 * columnToNumber_from column result + 26
      <= 26 ^ Z.of_nat (String.length column) * (25 * result + 26))%Z.
Proof.
  revert result. induction column as [|c column IH]; intros result Hup Hr.
  - cbn [columnToNumber_from String.length]. rewrite Z.pow_0_r. lia.
  - cbn [all_chars] in Hup. apply andb_true_iff in Hup as [Hc Hup].
    unfold isUpper in Hc. apply andb_true_iff in Hc as [Hlo Hhi].
    apply Nat.leb_le in Hlo, Hhi.
    cbn [columnToNumber_from String.length]. change (charCode "A") with 65%Z.
    assert (Hd : (1 <= charCode c - 65 + 1 <= 26)%Z) by (unfold charCode; lia).
    destruct (IH (result * 26 + (charCode c - 65 + 1))%Z Hup ltac:(lia)) as [Hge Hle].
    split; [lia|].
    rewrite Nat2Z.inj_succ, Z.pow_succ_r by lia.
    assert (Hpow : (0 < 26 ^ Z.of_nat (String.length column))%Z)
      by (apply Z.pow_pos_nonneg; lia).
    nia.
Qed.

(** X18. Reading a column name of capital letters as a number and writing
    the number back in letters gives the name again; for names of up to
    11 letters every number on the way is one a JavaScript number holds
    exactly. *)
Theorem numberToColumn_columnToNumber (column : string) :
  all_chars isUpper column = true ->
  String.length column <= 11 ->
  numberToColumn (columnToNumber column) = column
  /\ (0 <= columnToNumber column <= MAX_SAFE_INTEGER)%Z.
Proof.
  intros Hup Hlen. split.
  - unfold columnToNumber.
    enough (H : forall result,
               (0 <= result)%Z ->
               numberToColumn (columnToNumber_from column result)
               = (numberToColumn result ++ column)%string)
      by (rewrite H by lia; reflexivity).
    revert Hup. clear Hlen. induction column as [|c column IH]; intros Hup result Hr.
    + cbn [columnToNumber_from]. now rewrite string_app_nil_r.
    + cbn [all_chars] in Hup. apply andb_true_iff in Hup as [Hc Hup].
      unfold isUpper in Hc. apply andb_true_iff in Hc as [Hlo Hhi].
      apply Nat.leb_le in Hlo, Hhi.
      cbn [columnToNumber_from]. change (charCode "A") with 65%Z.
      assert (Hd : (1 <= charCode c - 65 + 1 <= 26)%Z) by (unfold charCode; lia).
      rewrite IH by (exact Hup || lia).
      rewrite numberToColumn_step by lia.
      replace ((result * 26 + (charCode c - 65 + 1) - 1) / 26)%Z with result
        by (apply Z.div_unique with (r := (charCode c - 65)%Z); lia).
      replace ((result * 26 + (charCode c - 65 + 1) - 1) mod 26)%Z with (charCode c - 65)%Z
        by (apply Z.mod_unique with (q := result); lia).
      replace (65 + (charCode c - 65))%Z with (charCode c) by lia.
      rewrite fromCharCode_charCode, string_app_assoc. reflexivity.
  - destruct (columnToNumber_from_bound column 0 Hup ltac:(lia)) as [Hge Hle].
    unfold columnToNumber. split; [exact Hge|].
    assert (Hpow : (26 ^ Z.of_nat (String.length column) <= 26 ^ 11)%Z)
      by (apply Z.pow_le_mono_r; lia).
    unfold MAX_SAFE_INTEGER.
    change (26 ^ 11)%Z with 3670344486987776%Z in Hpow.
    change (2 ^ 53)%Z with 9007199254740992%Z. lia.
Qed.

Lemma numberToColumn_columnToNumber_witness :
  columnToNumber "ZZ" = 702%Z /\ numberToColumn (columnToNumber "ZZ") = "ZZ".
Proof.
  split; [reflexivity|].
  exact (proj1 (numberToColumn_columnToNumber "ZZ" eq_refl ltac:(cbn; lia))).
Defined.

(** ** Fabric costs *)

Lemma get_setProperty (o : object) (name : string) (v : value) (name' : string) :
  get (setProperty o name v) name' = if String.eqb name name' then v else get o name'.
Proof.
  induction o as [|[k w] o IH]; cbn [setProperty get].
  - reflexivity.
  - destruct (String.eqb_spec k name) as [->|Hk]; cbn [get].
    + destruct (String.eqb name name'); reflexivity.
    + rewrite IH. destruct (String.eqb_spec k name') as [->|Hk'].
      * destruct (String.eqb_spec name name') as [->|_]; [congruence | reflexivity].
      * reflexivity.
Qed.




Lemma find_snoc {A : Type} (p : A -> bool) (l : list A) (x : A) :
  find p (l ++ [x])
  = match find p l with
    | Some y => Some y
    | None => if p x then Some x else None
    end.
Proof.
  induction l as [|y l IH]; cbn [List.app find]; [reflexivity|].
  destruct (p y); [reflexivity | exact IH].
Qed.

Section FabricCostsProperties.

Variable costOf : option string -> value.

Lemma get_addFabricRow (fabricCosts : object) (row : list string) (fabricType : string) :
  get (addFabricRow costOf fabricCosts row) fabricType
  = if namesFabric fabricType row then fabricEntry costOf row else get fabricCosts fabricType.
Proof.
  unfold addFabricRow, namesFabric.
  destruct (nth_error row 0) as [s|]; [|reflexivity].
  destruct (String.eqb s "") eqn:Es; cbn [negb].
  - now rewrite andb_false_r.
  - rewrite get_setProperty, andb_true_r. reflexivity.
Qed.

Lemma get_fabricRows (dataRows : list (list string)) (fabricCosts : object)
  (fabricType : string) :
  get (fold_left (addFabricRow costOf) dataRows fabricCosts) fabricType
  = match find (namesFabric fabricType) (List.rev dataRows) with
    | Some row => fabricEntry costOf row
    | None => get fabricCosts fabricType
    end.
Proof.
  revert fabricCosts. induction dataRows as [|row dataRows IH]; intros fabricCosts.
  - reflexivity.
  - cbn [fold_left List.rev]. rewrite IH, find_snoc, get_addFabricRow.
    destruct (find (namesFabric fabricType) (List.rev dataRows)); [reflexivity|].
    destruct (namesFabric fabricType row); reflexivity.
Qed.



(** X20. [getFabricCost] returns [null] exactly when no data row names the
    fabric type, and otherwise the entry of the last such row with the
    type added; when the request fails, the message the caller gets is
    prefixed twice. *)
Theorem getFabricCost_found_or_null
  (headers : list string) (dataRows : list (list string)) (fabricType : string)
  (error : RequestError) :
  ownName fabricType = true ->
  Forall (fun row => nth_error row 0 <> Some "__proto__") dataRows ->
  getFabricCost costOf (Replied (Some (headers :: dataRows))) fabricType
  = Returned
      match find (namesFabric fabricType) (List.rev dataRows) with
      | Some row =>
          VObj [("fabricType", VStr fabricType);
                ("costPerMeter", costOf (nth_error row 1));
                ("supplier", VStr (cellOr row 2));
                ("description", VStr (cellOr row 3))]
      | None => VNull
      end
  /\ getFabricCost costOf (Failed error) fabricType
     = Thrown (Error ("Error getting fabric cost: Error getting fabric costs: "
                        ++ messageOf error)).
Proof.
  intros _ _. split; [|reflexivity].
  unfold getFabricCost, getFabricCosts. cbv zeta. rewrite get_fabricRows.
  destruct (find (namesFabric fabricType) (List.rev dataRows)) as [row|]; reflexivity.
Qed.

End FabricCostsProperties.


Lemma getFabricCost_found_or_null_witness :
  getFabricCost wholeCost (Replied (Some fabricSheet)) "Silk"
  = Returned (VObj [("fabricType", VStr "Silk"); ("costPerMeter", VNum 900);
                    ("supplier", VStr "Mysore"); ("description", VStr "raw")])
  /\ getFabricCost wholeCost (Replied (Some fabricSheet)) "Linen" = Returned VNull.
Proof.
  assert (Hrows : Forall (fun row => nth_error row 0 <> Some "__proto__") (tl fabricSheet)).
  { repeat constructor; discriminate. }
  split.
  - exact (proj1 (getFabricCost_found_or_null wholeCost (hd [] fabricSheet) (tl fabricSheet)
                    "Silk" (mkRequestError None "") eq_refl Hrows)).
  - exact (proj1 (getFabricCost_found_or_null wholeCost (hd [] fabricSheet) (tl fabricSheet)
                    "Linen" (mkRequestError None "") eq_refl Hrows)).
Defined.
